(** * A shallow embedding of [tools/generate_types_from_api_json.py]

    The schema compiler reads a flat, path-encoded catalogue of API field
    rows and emits Pydantic record definitions.  This development embeds
    the path classifier, the identifier normaliser, the type-name registry,
    the model graph builder and the driver's argument check as Rocq
    functions, and states the properties of the specification over them.

    Conventions of the embedding.
    - A Python [str] is a Rocq [string]; the model is exact on ASCII text
      (the regular expressions of the source only mention ASCII classes).
    - A Python exception is a value of [pyerr] carried by [result].
    - A [dict] whose iteration order is observed is an association list in
      insertion order; the name registry, a [set] that is only tested for
      membership, is a [gset string].
    - The [print] calls guarded by [action == "CreateMCPToolset"] write
      debug text to the console and leave every value unchanged; they are
      not part of the embedding. *)

From Stdlib Require Import String Ascii List ZArith Lia Bool Arith.
From Stdlib Require Import DecimalString DecimalNat.
From stdpp Require Import base gmap strings list sets sorting.
Import ListNotations.

Local Open Scope string_scope.
Local Open Scope list_scope.

(** ** Exceptions *)

(** [LoopBound] is not a Python exception: it marks a bounded unfolding of
    a [while] loop that ran out of steps.  [build_graph_error] shows that
    the builder never ends with it. *)
Inductive pyerr : Type :=
| KeyError (key : string)
| IndexError
| ValueError (msg : string)
| LoopBound.

Inductive result (A : Type) : Type :=
| Ok (a : A)
| Err (e : pyerr).
Arguments Ok {A} a.
Arguments Err {A} e.

Definition bind {A B : Type} (r : result A) (k : A -> result B) : result B :=
  match r with
  | Ok a => k a
  | Err e => Err e
  end.

Notation "'do' p <- c ; k" := (bind c (fun p => k))
  (at level 10, p pattern, c at level 100, k at level 200, only parsing).

(** ** Strings *)

Definition dq : ascii := ascii_of_nat 34.
Definition backslash : ascii := ascii_of_nat 92.
Definition str1 (c : ascii) : string := String c EmptyString.

(** [s.split(sep)] for a one-character separator: never the empty list. *)
Fixpoint split (sep : ascii) (s : string) : list string :=
  match s with
  | EmptyString => [EmptyString]
  | String c s' =>
      if Ascii.eqb c sep then EmptyString :: split sep s'
      else match split sep s' with
           | [] => [str1 c]
           | h :: t => String c h :: t
           end
  end.

(** [sep.join(l)] *)
Definition join (sep : string) (l : list string) : string := String.concat sep l.

(** ** Path classifier *)

Definition marker : string := "N".

Definition is_marker (p : string) : bool := String.eqb p marker.

Definition parse_field_path (field_name : string)
  : result (list string * string * bool * bool) :=
  let parts := split "." field_name in
  let is_simple_array :=
    (2 <=? length parts)%nat &&
    match last parts with Some l => is_marker l | None => false end in
  let is_array_item :=
    if (1 <? length parts)%nat then existsb is_marker (removelast parts)
    else false in
  let clean_parts := List.filter (fun p => negb (is_marker p)) parts in
  if (length clean_parts =? 1)%nat then
    match clean_parts with
    | c :: _ => Ok ([], c, false, false)
    | [] => Err IndexError
    end
  else
    match last clean_parts with
    | Some l => Ok (removelast clean_parts, l, is_array_item, is_simple_array)
    | None => Err IndexError
    end.

(** ** Scanning substitutions

    [re.sub] and [str.replace] scan the subject from the left; where the
    pattern matches they emit the replacement and resume after the match,
    elsewhere they copy one character.  [matcher s] tries the pattern at
    the head of [s] and gives the replacement text with the number of
    characters consumed (never zero for the patterns of this program);
    [skip] counts the characters of the current match still to pass over. *)

Fixpoint sub_scan (matcher : string -> option (string * nat)) (skip : nat)
  (s : string) : string :=
  match s with
  | EmptyString => EmptyString
  | String c s' =>
      match skip with
      | S k => sub_scan matcher k s'
      | O =>
          match matcher s with
          | Some (repl, n) => repl +:+ sub_scan matcher (Nat.pred n) s'
          | None => String c (sub_scan matcher 0 s')
          end
      end
  end.

Definition re_sub (matcher : string -> option (string * nat)) (s : string) : string :=
  sub_scan matcher 0 s.

(** [s.replace(old, new)] for a non-empty [old]. *)
Definition str_replace (old new s : string) : string :=
  sub_scan (fun t => if String.prefix old t then Some (new, String.length old) else None) 0 s.

Definition in_range (lo hi : nat) (c : ascii) : bool :=
  let n := nat_of_ascii c in (lo <=? n)%nat && (n <=? hi)%nat.

Definition is_upper : ascii -> bool := in_range 65 90.
Definition is_lower : ascii -> bool := in_range 97 122.
Definition is_digit : ascii -> bool := in_range 48 57.
Definition is_underscore (c : ascii) : bool := Ascii.eqb c "_".

(** [[A-Z][a-z]] at the head of [s]. *)
Definition match_upper_lower (s : string) : option string :=
  match s with
  | String a (String b _) =>
      if is_upper a && is_lower b then Some (String a (str1 b)) else None
  | _ => None
  end.

(** [[A-Z]*] followed by [([A-Z][a-z])], greedy with backtracking: one more
    iteration of the star is tried first, zero iterations last.  The result
    is the text taken by the star and the second group. *)
Fixpoint match_uppers_then (s : string) : option (string * string) :=
  let zero := option_map (fun g2 => (EmptyString, g2)) (match_upper_lower s) in
  match s with
  | String c s' =>
      if is_upper c then
        match match_uppers_then s' with
        | Some (g1, g2) => Some (String c g1, g2)
        | None => zero
        end
      else zero
  | EmptyString => zero
  end.

(** [([A-Z]+)([A-Z][a-z])] replaced by [\1_\2]. *)
Definition match_step_one (s : string) : option (string * nat) :=
  match s with
  | String c s' =>
      if is_upper c then
        match match_uppers_then s' with
        | Some (g1, g2) =>
            Some (String c g1 +:+ "_" +:+ g2, S (String.length g1 + String.length g2))
        | None => None
        end
      else None
  | EmptyString => None
  end.

(** [([a-z0-9])([A-Z])] replaced by [\1_\2]. *)
Definition match_step_two (s : string) : option (string * nat) :=
  match s with
  | String a (String b _) =>
      if (is_lower a || is_digit a) && is_upper b
      then Some (String a (String "_" (str1 b)), 2)
      else None
  | _ => None
  end.

Fixpoint count_underscores (s : string) : nat :=
  match s with
  | String c s' => if is_underscore c then S (count_underscores s') else 0
  | EmptyString => 0
  end.

(** [__+] replaced by [_]. *)
Definition match_underscores (s : string) : option (string * nat) :=
  match s with
  | String a s' =>
      if is_underscore a then
        let n := count_underscores s' in
        if (1 <=? n)%nat then Some ("_", S n) else None
      else None
  | EmptyString => None
  end.

Definition lower_char (c : ascii) : ascii :=
  if is_upper c then ascii_of_nat (nat_of_ascii c + 32) else c.

Fixpoint lower (s : string) : string :=
  match s with
  | EmptyString => EmptyString
  | String c s' => String (lower_char c) (lower s')
  end.

Definition to_snake_case (name : string) : string :=
  if String.eqb name EmptyString then name
  else
    let step_one := re_sub match_step_one name in
    let step_two := re_sub match_step_two step_one in
    lower (re_sub match_underscores step_two).

(** ** Docstring sanitiser *)

(** ASCII characters for which [str.isspace] holds. *)
Definition is_space (c : ascii) : bool :=
  let n := nat_of_ascii c in
  ((9 <=? n)%nat && (n <=? 13)%nat) || ((28 <=? n)%nat && (n <=? 32)%nat).

(** [s.split()]: the maximal runs of non-blank characters. *)
Fixpoint words (s : string) : list string :=
  match s with
  | EmptyString => []
  | String c s' =>
      if is_space c then words s'
      else
        match s' with
        | EmptyString => [str1 c]
        | String d _ =>
            if is_space d then str1 c :: words s'
            else match words s' with
                 | h :: t => String c h :: t
                 | [] => [str1 c]
                 end
        end
  end.

Definition triple_quote : string := String dq (String dq (str1 dq)).
Definition escaped_triple_quote : string :=
  String backslash (String dq (String backslash (String dq (String backslash (str1 dq))))).
Definition cr : string := str1 (ascii_of_nat 13).
Definition nl : string := str1 (ascii_of_nat 10).

Definition sanitize_docstring (text : string) : string :=
  if String.eqb text EmptyString then EmptyString
  else
    let sanitized := str_replace triple_quote escaped_triple_quote text in
    let sanitized := str_replace nl " " (str_replace cr " " sanitized) in
    join " " (words sanitized).

(** ** Scalar type mapper *)

Definition get_python_type (type_id : Z) : string :=
  match type_id with
  | 1%Z => "str"
  | 2%Z => "int"
  | 3%Z => "float"
  | 4%Z => "int"
  | 5%Z => "float"
  | 6%Z => "bool"
  | 7%Z => "dict"
  | 8%Z => "list"
  | _ => "str"
  end.

(** ** Records of the generator *)

Module FieldInfo.
Record t : Type := make {
  name : string;          (* source name, used as alias *)
  python_name : string;
  type_str : string;
  is_required : bool;
  is_array : bool;
  description : string
}.

Definition to_field_definition (f : t) : string :=
  let final_type :=
    if is_array f then "list[" +:+ type_str f +:+ "]" else type_str f in
  let '(final_type, default_value) :=
    if negb (is_required f)
    then ("Optional[" +:+ final_type +:+ "]", "default=None")
    else (final_type, "...") in
  let field_def :=
    "Field(" +:+ default_value +:+ ", alias=" +:+ str1 dq +:+ name f +:+ str1 dq +:+ ")" in
  "    " +:+ python_name f +:+ ": " +:+ final_type +:+ " = " +:+ field_def.
End FieldInfo.

Fixpoint str_repeat (s : string) (n : nat) : string :=
  match n with
  | O => EmptyString
  | S k => s +:+ str_repeat s k
  end.

Definition newline : string := str1 (ascii_of_nat 10).

(** The [children] dictionary of the source class is never populated by
    the generator ([add_child] has no caller); a model is its name and its
    ordered fields. *)
Module NestedModel.
Record t : Type := make {
  name : string;
  fields : list FieldInfo.t
}.

Definition new (n : string) : t := make n [].

Definition add_field (f : FieldInfo.t) (m : t) : t :=
  make (name m) (fields m ++ [f]).

Definition set_name (n : string) (m : t) : t := make n (fields m).

Definition has_python_name (pn : string) (m : t) : bool :=
  existsb (fun f => String.eqb (FieldInfo.python_name f) pn) (fields m).

Definition to_class_definition (indent : nat) (base_class_name : string) (m : t) : string :=
  let indent_str := str_repeat "    " indent in
  let head := indent_str +:+ "class " +:+ name m +:+ "(" +:+ base_class_name +:+ "):" in
  let body :=
    match fields m with
    | [] => [indent_str +:+ "    pass"]
    | fs => map (fun f => indent_str +:+ FieldInfo.to_field_definition f) fs
    end in
  join newline (head :: body).
End NestedModel.

(** One input row: a JSON object read with [param["Name"]] and
    [param.get(key, default)]; an absent key is [None]. *)
Record param : Type := mkParam {
  p_Name : option string;
  p_Type : option Z;
  p_IsRequired : option Z;
  p_IsArray : option Z;
  p_Description : option string;
  p_ParameterType_ref : option string   (* param["ParameterType"]["$ref"] *)
}.

(** ** Insertion-ordered dictionaries with string keys *)

Fixpoint dict_get {V} (k : string) (d : list (string * V)) : option V :=
  match d with
  | [] => None
  | (k', v) :: d' => if String.eqb k' k then Some v else dict_get k d'
  end.

Definition dict_has {V} (k : string) (d : list (string * V)) : bool :=
  match dict_get k d with Some _ => true | None => false end.

(** [d[k] = v]: an existing key keeps its position. *)
Fixpoint dict_set {V} (k : string) (v : V) (d : list (string * V)) : list (string * V) :=
  match d with
  | [] => [(k, v)]
  | (k', v') :: d' =>
      if String.eqb k' k then (k', v) :: d' else (k', v') :: dict_set k v d'
  end.

Definition dict_keys {V} (d : list (string * V)) : list string := map fst d.
Definition dict_values {V} (d : list (string * V)) : list V := map snd d.

(** [d[k].add(x)] on a [defaultdict(set)]. *)
Definition defaultdict_add (k x : string) (d : list (string * gset string))
  : list (string * gset string) :=
  match dict_get k d with
  | Some s => dict_set k ({[x]} ∪ s) d
  | None => dict_set k {[x]} d
  end.

(** [sorted(s)] for a set of strings: code-point order. *)
Definition str_le (a b : string) : Prop := String.leb a b = true.
#[global] Instance str_le_dec a b : Decision (str_le a b).
Proof. unfold str_le. apply _. Defined.

Definition sorted (s : gset string) : list string := merge_sort str_le (elements s).

(** ** The generator and its name registry *)

Record APIStructGenerator : Type := mkGen {
  nested_models : list NestedModel.t;     (* values of the dict, in order *)
  generated_class_names : gset string;
  base_model_name : string;
  base_model_doc : string
}.

Definition init (base_model_name : string) (base_model_doc : option string)
  : APIStructGenerator :=
  mkGen [] {[base_model_name]} base_model_name
    (match base_model_doc with
     | Some d => if String.eqb d EmptyString then "AgentKit auto-generated base model" else d
     | None => "AgentKit auto-generated base model"
     end).

Definition default_generator : APIStructGenerator := init "AgentKitBaseModel" None.

Definition with_names (g : APIStructGenerator) (names : gset string) : APIStructGenerator :=
  mkGen (nested_models g) names (base_model_name g) (base_model_doc g).

Definition with_models (g : APIStructGenerator) (ms : list NestedModel.t) : APIStructGenerator :=
  mkGen ms (generated_class_names g) (base_model_name g) (base_model_doc g).

Definition register_class_name (name : string) (g : APIStructGenerator) : APIStructGenerator :=
  with_names g ({[name]} ∪ generated_class_names g).

(** [str(index)] *)
Definition str_of_nat (n : nat) : string := NilEmpty.string_of_uint (Nat.to_uint n).

Definition candidate_name (base_name action : string) (index : nat) : string :=
  base_name +:+ "For" +:+ action +:+ str_of_nat index.

(** The [while] loop of [qualify_model_name], unfolded at most [fuel] times. *)
Fixpoint qualify_loop (fuel : nat) (names : gset string) (base_name action : string)
  (candidate : string) (index : nat) : option string :=
  match fuel with
  | O => None
  | S fuel' =>
      if decide (candidate ∈ names)
      then qualify_loop fuel' names base_name action
             (candidate_name base_name action index) (S index)
      else Some candidate
  end.

(** The loop is run with one more step than the registry has names, which
    is always enough (see [qualify_loop_total]). *)
Definition qualify_model_name (base_name action : string) (g : APIStructGenerator)
  : option (string * APIStructGenerator) :=
  let names := generated_class_names g in
  match qualify_loop (S (size names)) names base_name action
          (base_name +:+ "For" +:+ action) 2 with
  | Some candidate => Some (candidate, with_names g ({[candidate]} ∪ names))
  | None => None
  end.

Definition endswith (s suffix : string) : bool :=
  (String.length suffix <=? String.length s)%nat &&
  String.eqb (substring (String.length s - String.length suffix) (String.length suffix) s) suffix.

Definition generic_suffixes : list string :=
  ["Configuration"; "Config"; "Info"; "List"; "Item"; "Items"].

Fixpoint strip_first_suffix (suffixes : list string) (name : string) : string :=
  match suffixes with
  | [] => name
  | suffix :: rest =>
      if endswith name suffix && (String.length suffix <? String.length name)%nat
      then substring 0 (String.length name - String.length suffix) name
      else strip_first_suffix rest name
  end.

Definition _strip_generic_suffix (name : string) : string :=
  strip_first_suffix generic_suffixes name.

Definition nonempty (s : string) : bool := negb (String.eqb s EmptyString).

Definition _build_nested_base_name (path : string) (is_array_object : bool) : string :=
  let parts := map _strip_generic_suffix (List.filter nonempty (split "." path)) in
  let core :=
    match parts with
    | [] => "NestedModel"
    | [p] => p
    | _ => String.concat EmptyString parts
    end in
  if is_array_object then core +:+ "Item" else core.

(** ** Model graph builder *)

Fixpoint foldM {A S} (f : A -> S -> result S) (l : list A) (s : S) : result S :=
  match l with
  | [] => Ok s
  | a :: l' => do s' <- f a s; foldM f l' s'
  end.

(** [param["Name"]] *)
Definition get_Name (p : param) : result string :=
  match p_Name p with
  | Some n => Ok n
  | None => Err (KeyError "Name")
  end.

Record discovery : Type := mkDiscovery {
  array_fields : list (string * gset string);
  normal_fields : list (string * gset string);
  nested_object_paths : gset string
}.

Definition empty_discovery : discovery := mkDiscovery [] [] ∅.

(** [".".join(path_parts[:i])] for [i] in [range(1, len(path_parts) + 1)] *)
Definition nested_prefixes (path_parts : list string) : list string :=
  map (fun i => join "." (take i path_parts)) (seq 1 (length path_parts)).

Definition discover_row (p : param) (d : discovery) : result discovery :=
  do field_name <- get_Name p;
  do (path_parts, final_name, is_array_item, is_simple_array) <- parse_field_path field_name;
  if (0 <? length path_parts)%nat then
    let path_str := join "." path_parts in
    let af := if is_array_item
              then defaultdict_add path_str final_name (array_fields d)
              else array_fields d in
    let nf := if is_array_item
              then normal_fields d
              else defaultdict_add path_str final_name (normal_fields d) in
    Ok (mkDiscovery af nf
          (fold_left (fun s q => {[q]} ∪ s) (nested_prefixes path_parts)
             (nested_object_paths d)))
  else Ok d.

Definition discover (parameters : list param) : result discovery :=
  foldM discover_row parameters empty_discovery.

(** Paths with array-item leaves only. *)
Definition array_objects_of (d : discovery) : list (string * gset string) :=
  List.filter (fun kv => negb (dict_has (fst kv) (normal_fields d))) (array_fields d).

(** The dictionaries [path_models], [path_class_names] and [class_models]
    of the source are three views of one collection of model objects: each
    created model is entered in all three at once, under its path or its
    (fresh) class name.  The embedding keeps the collection once, as a
    dictionary from path to model in creation order; the class name of a
    path is the name of its model. *)
Definition model_store : Type := list (string * NestedModel.t).

Definition path_class_name (path default : string) (store : model_store) : string :=
  match dict_get path store with
  | Some m => NestedModel.name m
  | None => default
  end.

Definition create_model (path : string) (is_array_object : bool) (action : string)
  (st : model_store * APIStructGenerator) : result (model_store * APIStructGenerator) :=
  let base_name := _build_nested_base_name path is_array_object in
  match qualify_model_name base_name action (snd st) with
  | Some (model_name, g') =>
      Ok (dict_set path (NestedModel.new model_name) (fst st), g')
  | None => Err LoopBound
  end.

Definition create_plain_model (action : string) (array_objects : list (string * gset string))
  (path : string) (st : model_store * APIStructGenerator)
  : result (model_store * APIStructGenerator) :=
  if negb (dict_has path array_objects) then create_model path false action st
  else Ok st.

Definition create_item_model (action : string) (nested : gset string)
  (array_path : string) (st : model_store * APIStructGenerator)
  : result (model_store * APIStructGenerator) :=
  let parts := split "." array_path in
  if (length parts =? 1)%nat || bool_decide (array_path ∈ nested)
  then create_model array_path true action st
  else Ok st.

Definition wire_child (array_objects : list (string * gset string))
  (store : model_store) (full_path : string) : model_store :=
  let parts := split "." full_path in
  if (length parts <? 2)%nat then store
  else
    let parent_path := join "." (removelast parts) in
    let child_name := default EmptyString (last parts) in
    match dict_get parent_path store with
    | None => store
    | Some parent_model =>
        let child_python_name := to_snake_case child_name in
        if NestedModel.has_python_name child_python_name parent_model then store
        else
          let child_type := path_class_name full_path child_name store in
          let is_array_object := dict_has full_path array_objects in
          let field := FieldInfo.make child_name child_python_name child_type
                         false is_array_object EmptyString in
          dict_set parent_path (NestedModel.add_field field parent_model) store
    end.

Record root_ref : Type := mkRootRef {
  ref_type : string;
  ref_is_array : bool;
  ref_is_required : bool
}.

Record fill_state : Type := mkFill {
  fs_root : NestedModel.t;
  fs_store : model_store;
  fs_root_refs : list (string * root_ref)
}.

Definition store_add_field (path : string) (f : FieldInfo.t) (store : model_store)
  : model_store :=
  match dict_get path store with
  | Some m => dict_set path (NestedModel.add_field f m) store
  | None => store
  end.

Definition fill_row (p : param) (s : fill_state) : result fill_state :=
  do field_name <- get_Name p;
  do (path_parts, final_name, is_array_item, is_simple_array) <- parse_field_path field_name;
  let type_id := default 1%Z (p_Type p) in
  let python_type := get_python_type type_id in
  let is_required := Z.eqb (default 0%Z (p_IsRequired p)) 1 in
  let description := default EmptyString (p_Description p) in
  let python_name := to_snake_case final_name in
  let field is_array :=
    FieldInfo.make final_name python_name python_type is_required is_array description in
  match path_parts with
  | [] =>
      Ok (mkFill (NestedModel.add_field (field false) (fs_root s))
            (fs_store s) (fs_root_refs s))
  | first :: _ =>
      let path := join "." path_parts in
      if is_simple_array then
        match dict_get path (fs_store s) with
        | Some parent_model =>
            if NestedModel.has_python_name python_name parent_model then Ok s
            else Ok (mkFill (fs_root s)
                       (store_add_field path (field true) (fs_store s))
                       (fs_root_refs s))
        | None =>
            if (length path_parts =? 0)%nat
            then Ok (mkFill (NestedModel.add_field (field true) (fs_root s))
                       (fs_store s) (fs_root_refs s))
            else Ok s
        end
      else if is_array_item then
        if dict_has path (fs_store s) then
          let store' := store_add_field path (field false) (fs_store s) in
          if (length path_parts =? 1)%nat then
            let array_name := first in
            if negb (dict_has array_name (fs_root_refs s)) then
              let rt := path_class_name path (array_name +:+ "Item") store' in
              Ok (mkFill (fs_root s) store'
                    (dict_set array_name (mkRootRef rt true false) (fs_root_refs s)))
            else Ok (mkFill (fs_root s) store' (fs_root_refs s))
          else Ok (mkFill (fs_root s) store' (fs_root_refs s))
        else Ok s
      else
        let store' :=
          if dict_has path (fs_store s)
          then store_add_field path (field false) (fs_store s)
          else fs_store s in
        let root_level_name := first in
        if negb (dict_has root_level_name (fs_root_refs s)) then
          let rt := path_class_name root_level_name root_level_name store' in
          Ok (mkFill (fs_root s) store'
                (dict_set root_level_name (mkRootRef rt false false) (fs_root_refs s)))
        else Ok (mkFill (fs_root s) store' (fs_root_refs s))
  end.

Definition add_root_ref (root : NestedModel.t) (kv : string * root_ref) : NestedModel.t :=
  let '(ref_name, ref_info) := kv in
  let python_name := to_snake_case ref_name in
  if NestedModel.has_python_name python_name root then root
  else NestedModel.add_field
         (FieldInfo.make ref_name python_name (ref_type ref_info)
            (ref_is_required ref_info) (ref_is_array ref_info) EmptyString)
         root.

(** The body of [create_nested_structure] up to the point where the root
    references are added; it exposes the local [path_models] and
    [root_refs] next to the root. *)
Definition build_graph (parameters : list param) (action : string)
  (g : APIStructGenerator) : result (fill_state * APIStructGenerator) :=
  do d <- discover parameters;
  let array_objects := array_objects_of d in
  let nested := nested_object_paths d in
  do st <- foldM (create_plain_model action array_objects) (sorted nested) ([], g);
  do st <- foldM (create_item_model action nested) (dict_keys array_objects) st;
  let store := fold_left (wire_child array_objects) (sorted nested) (fst st) in
  do s <- foldM fill_row parameters (mkFill (NestedModel.new "Root") store []);
  Ok (s, snd st).

Definition create_nested_structure (parameters : list param) (action : string)
  (g : APIStructGenerator) : result (NestedModel.t * APIStructGenerator) :=
  do (s, g) <- build_graph parameters action g;
  let root := fold_left add_root_ref (fs_root_refs s) (fs_root s) in
  Ok (root, with_models g (dict_values (fs_store s))).

Definition generate_request_model (action : string) (parameters : list param)
  (g : APIStructGenerator) : result (string * APIStructGenerator) :=
  let class_name := action +:+ "Request" in
  let g := register_class_name class_name g in
  do (root, g) <- create_nested_structure parameters action g;
  let root := NestedModel.set_name class_name root in
  let sections :=
    map (NestedModel.to_class_definition 0 (base_model_name g)) (nested_models g)
    ++ [NestedModel.to_class_definition 0 (base_model_name g) root] in
  Ok (join (newline +:+ newline) sections, g).

Definition response_field_line (p : param) : string :=
  let name := default EmptyString (p_Name p) in
  let type_id := default 1%Z (p_Type p) in
  let is_array := Z.eqb (default 0%Z (p_IsArray p)) 1 in
  let param_type_ref := default EmptyString (p_ParameterType_ref p) in
  let python_name := to_snake_case name in
  let python_type :=
    if nonempty param_type_ref then param_type_ref else get_python_type type_id in
  let python_type := if is_array then "list[" +:+ python_type +:+ "]" else python_type in
  let python_type := "Optional[" +:+ python_type +:+ "]" in
  let field_def := "Field(default=None, alias=" +:+ str1 dq +:+ name +:+ str1 dq +:+ ")" in
  "    " +:+ python_name +:+ ": " +:+ python_type +:+ " = " +:+ field_def.

Definition generate_response_model (action : string) (parameters : list param)
  (g : APIStructGenerator) : string * APIStructGenerator :=
  let class_name := action +:+ "Response" in
  if bool_decide (class_name ∈ generated_class_names g) then (EmptyString, g)
  else
    let g := register_class_name class_name g in
    let head := "class " +:+ class_name +:+ "(" +:+ base_model_name g +:+ "):" in
    let body :=
      match parameters with
      | [] => ["    pass"]
      | _ => map response_field_line parameters
      end in
    (join newline (head :: body), g).

(** ** Schema document and whole-file generation *)

Record element : Type := mkElement {
  e_ElementName : option string;
  e_ElementType : option Z;
  e_IsRequired : option Z;
  e_IsArray : option Z;
  e_ParameterType_ref : option string
}.

Record datatype : Type := mkDatatype {
  dt_StructName : option string;
  dt_Element : option (list element)
}.

Record api : Type := mkApi {
  api_Action : option string;
  api_RequestParameters : option (list param);
  api_ResponseParameters : option (list param)
}.

Record document : Type := mkDocument {
  doc_DataType : option (list datatype);
  doc_ApiList : option (list api)
}.

Definition quoted (s : string) : string := str1 dq +:+ s +:+ str1 dq.

Definition element_line (e : element) : string :=
  let elem_name := default EmptyString (e_ElementName e) in
  let elem_type := default 1%Z (e_ElementType e) in
  let is_required := Z.eqb (default 0%Z (e_IsRequired e)) 1 in
  let is_array := Z.eqb (default 0%Z (e_IsArray e)) 1 in
  let param_type_ref := default EmptyString (e_ParameterType_ref e) in
  let python_name := to_snake_case elem_name in
  let python_type :=
    if nonempty param_type_ref then param_type_ref else get_python_type elem_type in
  let python_type := if is_array then "list[" +:+ python_type +:+ "]" else python_type in
  let '(python_type, default_value) :=
    if negb is_required
    then ("Optional[" +:+ python_type +:+ "]", "default=None")
    else (python_type, "...") in
  "    " +:+ python_name +:+ ": " +:+ python_type +:+ " = Field(" +:+ default_value
    +:+ ", alias=" +:+ quoted elem_name +:+ ")".

Fixpoint datatype_models_from (i : nat) (data_types : list datatype)
  (lines : list string) (g : APIStructGenerator) : list string * APIStructGenerator :=
  match data_types with
  | [] => (lines, g)
  | dtype :: rest =>
      let struct_name := default EmptyString (dt_StructName dtype) in
      let elements := default [] (dt_Element dtype) in
      if negb (nonempty struct_name) || (length elements =? 0)%nat
      then datatype_models_from (S i) rest lines g
      else if bool_decide (struct_name ∈ generated_class_names g)
      then datatype_models_from (S i) rest lines g
      else
        let g := register_class_name struct_name g in
        let lines := if (0 <? i)%nat then lines ++ [EmptyString; EmptyString] else lines in
        let lines := lines ++ ["class " +:+ struct_name +:+ "(" +:+ base_model_name g +:+ "):"] in
        let lines := lines ++ map element_line elements in
        datatype_models_from (S i) rest lines g
  end.

Definition generate_datatype_models (data_types : list datatype) (g : APIStructGenerator)
  : list string * APIStructGenerator :=
  datatype_models_from 0 data_types [] g.

Definition _generate_file_header : list string :=
  [ "# Copyright (c) 2025 Beijing Volcano Engine Technology Co., Ltd. and/or its affiliates.";
    "#";
    "# Licensed under the Apache License, Version 2.0 (the " +:+ quoted "License" +:+ ");";
    "# you may not use this file except in compliance with the License.";
    "# You may obtain a copy of the License at";
    "#";
    "#     http://www.apache.org/licenses/LICENSE-2.0";
    "#";
    "# Unless required by applicable law or agreed to in writing, software";
    "# distributed under the License is distributed on an " +:+ quoted "AS IS" +:+ " BASIS,";
    "# WITHOUT WARRANTIES OR CONDITIONS OF ANY KIND, either express or implied.";
    "# See the License for the specific language governing permissions and";
    "# limitations under the License.";
    EmptyString;
    "# Auto-generated from API JSON definition";
    "# Do not edit manually";
    EmptyString;
    "from __future__ import annotations";
    EmptyString ].

Definition generate_api (a : api) (st : list string * APIStructGenerator)
  : result (list string * APIStructGenerator) :=
  let '(lines, g) := st in
  let action := default EmptyString (api_Action a) in
  let request_params := default [] (api_RequestParameters a) in
  let response_params := default [] (api_ResponseParameters a) in
  do (lines, g) <-
    match request_params with
    | [] => Ok (lines, g)
    | _ =>
        do (text, g) <- generate_request_model action request_params g;
        Ok (lines ++ ["# " +:+ action +:+ " - Request"; text; EmptyString; EmptyString], g)
    end;
  match response_params with
  | [] => Ok (lines, g)
  | _ =>
      let '(text, g) := generate_response_model action response_params g in
      Ok (lines ++ ["# " +:+ action +:+ " - Response"; text; EmptyString; EmptyString], g)
  end.

Definition generate_from_api_json (data : document) (g : APIStructGenerator)
  : result (string * APIStructGenerator) :=
  let lines := _generate_file_header in
  let lines := lines ++
    [ "from typing import Optional";
      "from pydantic import BaseModel, Field";
      EmptyString;
      join newline
        [ "class " +:+ base_model_name g +:+ "(BaseModel):";
          "    " +:+ triple_quote +:+ base_model_doc g +:+ triple_quote;
          "    model_config = {";
          "        " +:+ quoted "populate_by_name" +:+ ": True,";
          "        " +:+ quoted "arbitrary_types_allowed" +:+ ": True";
          "    }" ];
      EmptyString;
      EmptyString ] in
  let '(lines, g) :=
    match doc_DataType data with
    | Some (dt :: dts) =>
        let '(datatype_lines, g) := generate_datatype_models (dt :: dts) g in
        (lines ++ ["# Data Types"] ++ datatype_lines ++ [EmptyString; EmptyString], g)
    | _ => (lines, g)
    end in
  do (lines, g) <- foldM generate_api (default [] (doc_ApiList data)) (lines, g);
  Ok (join newline lines, g).

(** ** Client module *)

Definition actions_of (api_list : list api) : list string :=
  List.filter nonempty (map (fun a => default EmptyString (api_Action a)) api_list).

Definition or_else (s fallback : string) : string :=
  if nonempty s then s else fallback.

Definition generate_client_module (data : document)
  (client_class_name client_description service_name types_module
     base_class_import base_class_name : string) : string :=
  match default [] (doc_ApiList data) with
  | [] => EmptyString
  | api_list =>
      let actions := actions_of api_list in
      let type_names :=
        flat_map (fun action => [action +:+ "Request"; action +:+ "Response"]) actions in
      let doc :=
        sanitize_docstring
          (or_else client_description ("AgentKit client for " +:+ service_name)) in
      let lines :=
        _generate_file_header
        ++ [ "from typing import Dict";
             "from " +:+ base_class_import +:+ " import " +:+ base_class_name;
             "from " +:+ types_module +:+ " import (" ]
        ++ map (fun n => "    " +:+ n +:+ ",") (sorted (list_to_set type_names))
        ++ [ ")"; EmptyString; EmptyString;
             "class " +:+ client_class_name +:+ "(" +:+ base_class_name +:+ "):";
             "    " +:+ triple_quote +:+ doc +:+ triple_quote;
             "    API_ACTIONS: Dict[str, str] = {" ]
        ++ map (fun action =>
                  "        " +:+ quoted action +:+ ": " +:+ quoted action +:+ ",") actions
        ++ [ "    }"; EmptyString;
             "    def __init__(";
             "        self,";
             "        access_key: str = " +:+ quoted EmptyString +:+ ",";
             "        secret_key: str = " +:+ quoted EmptyString +:+ ",";
             "        region: str = " +:+ quoted EmptyString +:+ ",";
             "        session_token: str = " +:+ quoted EmptyString +:+ ",";
             "    ) -> None:";
             "        super().__init__(";
             "            access_key=access_key,";
             "            secret_key=secret_key,";
             "            region=region,";
             "            session_token=session_token,";
             "            service_name=" +:+ quoted service_name +:+ ",";
             "        )";
             EmptyString ]
        ++ flat_map (fun action =>
             let method_name := to_snake_case action in
             let req_type := action +:+ "Request" in
             let resp_type := action +:+ "Response" in
             [ EmptyString;
               "    def " +:+ method_name +:+ "(self, request: " +:+ req_type
                 +:+ ") -> " +:+ resp_type +:+ ":";
               "        return self._invoke_api(";
               "            api_action=" +:+ quoted action +:+ ",";
               "            request=request,";
               "            response_type=" +:+ resp_type +:+ ",";
               "        )" ]) actions
        ++ [ EmptyString ] in
      join newline lines
  end.

(** ** Driver *)

Record args : Type := mkArgs {
  json_file : string;
  output : string;
  client_output : option string;
  client_class_name : option string;
  client_description : option string;
  service_name : option string;
  types_module : option string;
  base_class_import : string;
  base_client_class : string;
  base_class_name : string;
  base_class_doc : string
}.

(** The command line with every option at its default. *)
Definition default_args (json_file : string) : args :=
  mkArgs json_file "generated_types.py" None None None None None
    "agentkit.client" "BaseAgentkitClient" "AgentKitBaseModel"
    "AgentKit auto-generated base model".

(** Truth value of an optional string option. *)
Definition truthy (o : option string) : bool :=
  match o with
  | Some s => nonempty s
  | None => false
  end.

Definition client_flags (a : args) : list (string * option string) :=
  [ ("--client-class-name", client_class_name a);
    ("--service-name", service_name a);
    ("--types-module", types_module a) ].

Definition missing_flags (a : args) : list string :=
  map fst (List.filter (fun nv => negb (truthy (snd nv))) (client_flags a)).

(** Text that opens the message of the configuration error. *)
Definition missing_args_prefix : string := "缺少生成客户端所需参数: ".

(** [main], with the file system made explicit: [loaded] is the outcome of
    opening and decoding [json_file]; the result lists the files written,
    in order, and says how the run ended.  Console output is left out. *)
Definition main (a : args) (loaded : result document)
  : list (string * string) * result unit :=
  match loaded with
  | Err e => ([], Err e)
  | Ok api_data =>
      let generator := init (base_class_name a) (Some (base_class_doc a)) in
      match generate_from_api_json api_data generator with
      | Err e => ([], Err e)
      | Ok (generated_code, generator) =>
          let written := [(output a, generated_code)] in
          if truthy (client_output a) then
            if negb (forallb truthy (map snd (client_flags a))) then
              let missing_str := join ", " (missing_flags a) in
              (written, Err (ValueError (missing_args_prefix +:+ missing_str)))
            else
              let client_code :=
                generate_client_module api_data
                  (default EmptyString (client_class_name a))
                  (default EmptyString (client_description a))
                  (default EmptyString (service_name a))
                  (default EmptyString (types_module a))
                  (base_class_import a) (base_client_class a) in
              (written ++ [(default EmptyString (client_output a), client_code)], Ok tt)
          else (written, Ok tt)
      end
  end.

(** ** Predicates used in the statements below *)

Fixpoint all_chars (p : ascii -> bool) (s : string) : bool :=
  match s with
  | EmptyString => true
  | String c s' => p c && all_chars p s'
  end.

Definition not_upper (c : ascii) : bool := negb (is_upper c).

Definition not_dot (c : ascii) : bool := negb (Ascii.eqb c ".").

(** A path segment: free of dots and different from the array marker. *)
Definition is_segment (s : string) : bool :=
  all_chars not_dot s && negb (is_marker s).

Definition not_space (c : ascii) : bool := negb (is_space c).

Definition starts_with_space (s : string) : bool :=
  match s with
  | String c _ => is_space c
  | EmptyString => false
  end.

(** No two adjacent blank characters. *)
Fixpoint no_space_run (s : string) : bool :=
  match s with
  | EmptyString => true
  | String c s' => negb (is_space c && starts_with_space s') && no_space_run s'
  end.

(** A word: non-empty, free of blank characters. *)
Definition is_word (w : string) : Prop :=
  w <> EmptyString /\ all_chars not_space w = true.

(** Every blank character is a plain space. *)
Definition only_plain_spaces (s : string) : bool :=
  all_chars (fun c => not_space c || Ascii.eqb c " ") s.

Definition starts_with_underscore (s : string) : bool :=
  match s with
  | String c _ => is_underscore c
  | EmptyString => false
  end.

(** No two adjacent underscores. *)
Fixpoint no_double_underscore (s : string) : bool :=
  match s with
  | EmptyString => true
  | String c s' =>
      negb (is_underscore c && starts_with_underscore s') && no_double_underscore s'
  end.

(** [sub in s] *)
Fixpoint contains (sub s : string) : bool :=
  String.prefix sub s ||
  match s with
  | EmptyString => false
  | String _ s' => contains sub s'
  end.

(** [s[n:]] *)
Fixpoint str_drop (n : nat) (s : string) : string :=
  match n, s with
  | S k, String _ s' => str_drop k s'
  | _, _ => s
  end.

(** A compiler run, as far as the registry is concerned: the calls of
    [register_class_name] and [qualify_model_name] in the order made. *)
Inductive registry_op : Type :=
| Register (name : string)
| Qualify (base_name action : string).

(** The names returned by the [Qualify] calls, in order, and the final
    generator. *)
Fixpoint run_ops (ops : list registry_op) (g : APIStructGenerator)
  : option (list string * APIStructGenerator) :=
  match ops with
  | [] => Some ([], g)
  | Register name :: rest => run_ops rest (register_class_name name g)
  | Qualify base_name action :: rest =>
      match qualify_model_name base_name action g with
      | Some (c, g') =>
          match run_ops rest g' with
          | Some (returned, g'') => Some (c :: returned, g'')
          | None => None
          end
      | None => None
      end
  end.

(** ** Reachability in the model graph *)

(** Type names the fields of a model refer to. *)
Definition referenced_types (m : NestedModel.t) : list string :=
  map FieldInfo.type_str (NestedModel.fields m).

Definition name_in (l : list string) (n : string) : bool := existsb (String.eqb n) l.

(** The type names met after [rounds] rounds of following the fields of
    the models already met. *)
Fixpoint reachable_names (rounds : nat) (models : list NestedModel.t)
  (seen : list string) : list string :=
  match rounds with
  | O => seen
  | S k =>
      let next :=
        flat_map (fun m => if name_in seen (NestedModel.name m)
                           then referenced_types m else []) models in
      reachable_names k models (seen ++ next)
  end.

(** [m] is reachable from [root] through reference fields. *)
Definition reachable (root : NestedModel.t) (models : list NestedModel.t)
  (m : NestedModel.t) : bool :=
  name_in (reachable_names (length models) models (referenced_types root))
    (NestedModel.name m).

(** ** Inputs of the scenarios *)

Definition row (name : string) : param :=
  mkParam (Some name) None None None None None.

Definition typed_row (name : string) (type_id is_required : Z) : param :=
  mkParam (Some name) (Some type_id) (Some is_required) None None None.


Definition create_agent_rows : list param :=
  [ typed_row "Name" 1 1; typed_row "Envs.N.Key" 1 0; typed_row "Envs.N.Value" 1 0 ].

Definition envs_item_model : NestedModel.t :=
  NestedModel.make "EnvsItemForCreateAgent"
    [ FieldInfo.make "Key" "key" "str" false false EmptyString;
      FieldInfo.make "Value" "value" "str" false false EmptyString ].

Definition create_agent_request_model : NestedModel.t :=
  NestedModel.make "CreateAgentRequest"
    [ FieldInfo.make "Name" "name" "str" true false EmptyString;
      FieldInfo.make "Envs" "envs" "EnvsItemForCreateAgent" false true EmptyString ].

Definition five_quotes : string :=
  String dq (String dq (String dq (String dq (str1 dq)))).

Definition empty_document : document := mkDocument None None.

Definition partial_client_args : args :=
  mkArgs "api.json" "generated_types.py" (Some "client.py") (Some "AgentkitMCP")
    None None None "agentkit.client" "BaseAgentkitClient" "AgentKitBaseModel"
    "AgentKit auto-generated base model".

Definition ungated_client_args : args :=
  mkArgs "api.json" "generated_types.py" None (Some "AgentkitMCP")
    None None None "agentkit.client" "BaseAgentkitClient" "AgentKitBaseModel"
    "AgentKit auto-generated base model".

(** ** Vocabulary of the classification statements *)

(** The classifier's answer for a row, when the row has a name and the
    classifier accepts it. *)
Definition row_class (p : param) : option (list string * string * bool * bool) :=
  match p_Name p with
  | Some n =>
      match parse_field_path n with
      | Ok r => Some r
      | Err _ => None
      end
  | None => None
  end.

(** Row [p] is a leaf recorded under the non-root ownership path [P],
    with the array-item flag equal to [array_marked]. *)
Definition leaf_under (P : string) (array_marked : bool) (p : param) : Prop :=
  exists path_parts leaf is_simple_array,
    row_class p = Some (path_parts, leaf, array_marked, is_simple_array) /\
    path_parts <> [] /\ join "." path_parts = P.

(** [name] is a value [qualify_model_name base_name action] can return. *)
Definition is_qualified (base_name action name : string) : Prop :=
  name = base_name +:+ "For" +:+ action \/
  exists index, name = candidate_name base_name action index.


(** Same paths and names, fields only added. *)
Definition store_extends (st st' : model_store) : Prop :=
  forall P,
    match dict_get P st, dict_get P st' with
    | Some m, Some m' =>
        NestedModel.name m' = NestedModel.name m /\
        incl (NestedModel.fields m) (NestedModel.fields m')
    | None, None => True
    | _, _ => False
    end.



(** The node of path [P] carries a name built for that path: with the
    [Item] suffix exactly when [P] is among [array_objects]. *)
Definition name_ok (action : string) (array_objects : list (string * gset string))
  (P : string) (m : NestedModel.t) : Prop :=
  is_qualified (_build_nested_base_name P (dict_has P array_objects)) action
    (NestedModel.name m).

Definition store_named (action : string) (array_objects : list (string * gset string))
  (st : model_store) : Prop :=
  forall P m, dict_get P st = Some m -> name_ok action array_objects P m.

(** ** Vocabulary of the further properties *)

Definition lower_or_digit (c : ascii) : bool := is_lower c || is_digit c.

(** A capitalised word: an upper-case letter followed by one or more
    lower-case letters or digits. *)
Definition is_capitalised (w : string) : bool :=
  match w with
  | String c (String d r) => is_upper c && all_chars lower_or_digit (String d r)
  | _ => false
  end.

Definition starts_with_upper (s : string) : bool :=
  match s with
  | String c _ => is_upper c
  | EmptyString => false
  end.

(** No two adjacent upper-case letters. *)
Fixpoint no_adjacent_upper (s : string) : bool :=
  match s with
  | EmptyString => true
  | String c s' => negb (is_upper c && starts_with_upper s') && no_adjacent_upper s'
  end.

(** The words of a list, each preceded by an underscore. *)
Definition underscored (ws : list string) : string :=
  String.concat EmptyString (map (fun w => String "_" w) ws).

(** No lower-case letter or digit directly followed by an upper-case
    letter. *)
Fixpoint no_case_boundary (s : string) : bool :=
  match s with
  | EmptyString => true
  | String c s' => negb (lower_or_digit c && starts_with_upper s') && no_case_boundary s'
  end.

(** A capitalised word whose second character is a letter. *)
Definition is_capitalised_letter (w : string) : bool :=
  match w with
  | String c (String d r) => is_upper c && is_lower d && all_chars lower_or_digit r
  | _ => false
  end.

(** After compiling the request of [action] its type name is registered. *)
Definition action_request_registered (action : string) (parameters : list param)
  (g : APIStructGenerator) : Prop :=
  match generate_request_model action parameters g with
  | Ok (_, g') => action +:+ "Request" ∈ generated_class_names g'
  | Err _ => False
  end.

(** The class names of the models of a store, in creation order. *)
Definition model_names (st : model_store) : list string :=
  map NestedModel.name (dict_values st).

(** What the creation loops keep true of the store and the registry,
    relative to the registry [names0] at the start. *)
Definition names_inv (names0 : gset string)
  (st : model_store * APIStructGenerator) : Prop :=
  NoDup (model_names (fst st)) /\
  (forall n, In n (model_names (fst st)) ->
             n ∈ generated_class_names (snd st) /\ n ∉ names0) /\
  names0 ⊆ generated_class_names (snd st).



(** A struct of the [DataType] section that gets a record: it has a name
    and at least one element. *)
Definition is_emitted_struct (dt : datatype) : bool :=
  nonempty (default EmptyString (dt_StructName dt))
  && negb (length (default [] (dt_Element dt)) =? 0)%nat.





(** * Sanity checks: the worked examples of the source and of the specification *)

Example parse_root : parse_field_path "Name" = Ok ([], "Name", false, false).
Proof. reflexivity. Qed.

Example parse_nested :
  parse_field_path "AuthorizerConfiguration.KeyAuth.ApiKey"
  = Ok (["AuthorizerConfiguration"; "KeyAuth"], "ApiKey", false, false).
Proof. reflexivity. Qed.

Example parse_array_item :
  parse_field_path "Envs.N.Key" = Ok (["Envs"], "Key", true, false).
Proof. reflexivity. Qed.

Example parse_simple_array :
  parse_field_path "AuthorizerConfiguration.CustomJwtAuthorizer.AllowedClients.N"
  = Ok (["AuthorizerConfiguration"; "CustomJwtAuthorizer"], "AllowedClients", false, true).
Proof. reflexivity. Qed.

Example parse_both : parse_field_path "A.N.B.N" = Ok (["A"], "B", true, true).
Proof. reflexivity. Qed.

Example parse_xn : parse_field_path "X.N" = Ok ([], "X", false, false).
Proof. reflexivity. Qed.

Example parse_only_marker : parse_field_path "N" = Err IndexError.
Proof. reflexivity. Qed.

Example snake1 : to_snake_case "MCPService" = "mcp_service". Proof. reflexivity. Qed.

Example snake2 : to_snake_case "ServiceID" = "service_id". Proof. reflexivity. Qed.

Example snake3 : to_snake_case "AllowedClients" = "allowed_clients". Proof. reflexivity. Qed.

Example snake4 : to_snake_case "A__B___c" = "a_b_c". Proof. reflexivity. Qed.

Example snake5 : to_snake_case "HTTPSServerURLv2Name" = "https_server_ur_lv2_name". Proof. reflexivity. Qed.

Example san1 : sanitize_docstring ("  a " +:+ nl +:+ cr +:+ " b  ") = "a b". Proof. reflexivity. Qed.

Example san2 : sanitize_docstring (triple_quote +:+ String dq (str1 dq)) = escaped_triple_quote  +:+ String dq (str1 dq). Proof. reflexivity. Qed.

Example strip1 : _strip_generic_suffix "AuthorizerConfiguration" = "Authorizer". Proof. reflexivity. Qed.

Example strip2 : _strip_generic_suffix "Config" = "Config". Proof. reflexivity. Qed.

Example strip3 : _strip_generic_suffix "EnvItems" = "Env". Proof. reflexivity. Qed.

Example build1 : _build_nested_base_name "AuthorizerConfiguration.CustomJwtAuthorizer" false = "AuthorizerCustomJwtAuthorizer". Proof. reflexivity. Qed.

Example q1 : option_map fst (qualify_model_name "EnvsItem" "CreateAgent" default_generator) = Some "EnvsItemForCreateAgent". Proof. vm_compute. reflexivity. Qed.

Example q2 : option_map fst (qualify_model_name "EnvsItem" "CreateAgent"
   (register_class_name "EnvsItemForCreateAgent2" (register_class_name "EnvsItemForCreateAgent" default_generator))) = Some "EnvsItemForCreateAgent3". Proof. vm_compute. reflexivity. Qed.

Example sorted1 : sorted (list_to_set ["b"; "a.b"; "a"; "B"; "a.b"]) = ["B"; "a"; "a.b"; "b"]. Proof. vm_compute. reflexivity. Qed.

(** * Path classifier *)

Section PathClassifier.

Lemma split_nonempty sep s : split sep s <> [].
Proof.
  destruct s as [|c s]; simpl; [discriminate|].
  destruct (Ascii.eqb c sep); [discriminate|].
  destruct (split sep s); discriminate.
Qed.

Lemma last_removelast {A} (l : list A) x :
  last l = Some x -> l = removelast l ++ [x].
Proof.
  intros H. apply last_Some in H as [l' ->].
  now rewrite removelast_last.
Qed.

Lemma is_marker_spec p : is_marker p = true <-> p = marker.
Proof. unfold is_marker. apply String.eqb_eq. Qed.

Lemma existsb_is_marker l : existsb is_marker l = true <-> In marker l.
Proof.
  rewrite existsb_exists. split.
  - intros (x & Hin & Hx). apply is_marker_spec in Hx. now subst.
  - intros Hin. exists marker. split; [assumption|reflexivity].
Qed.

Lemma split_segment a : all_chars not_dot a = true -> split "." a = [a].
Proof.
  induction a as [|c a IH]; [reflexivity|]. simpl. unfold not_dot at 1.
  intros H. apply andb_true_iff in H as [Hc Ha].
  apply negb_true_iff in Hc. rewrite Hc, (IH Ha). reflexivity.
Qed.

Lemma split_append a rest :
  all_chars not_dot a = true ->
  split "." (a +:+ String "." rest) = a :: split "." rest.
Proof.
  induction a as [|c a IH]; [reflexivity|]. simpl. unfold not_dot at 1.
  intros H. apply andb_true_iff in H as [Hc Ha].
  apply negb_true_iff in Hc. rewrite Hc, (IH Ha). reflexivity.
Qed.

Lemma is_segment_spec s :
  is_segment s = true -> all_chars not_dot s = true /\ is_marker s = false.
Proof.
  unfold is_segment. intros H. apply andb_true_iff in H as [H1 H2].
  split; [assumption|]. now apply negb_true_iff.
Qed.

End PathClassifier.

(** C2 (as amended).  On every path string the classifier either raises
    [IndexError], exactly when no segment other than the marker is left,
    or returns the non-marker segments split into ownership path and leaf.
    A path with a single non-marker segment is a root field with both flags
    false.  The two flags are not exclusive: both are true exactly when at
    least two non-marker segments remain, the last segment is the marker
    and a marker occurs among the earlier segments. *)
Theorem parse_field_path_flags (field_name : string) :
  let parts := split "." field_name in
  let clean := List.filter (fun p => negb (is_marker p)) parts in
  match parse_field_path field_name with
  | Err e => e = IndexError /\ clean = []
  | Ok (path_parts, leaf, is_array_item, is_simple_array) =>
      clean = path_parts ++ [leaf] /\
      (path_parts = [] -> is_array_item = false /\ is_simple_array = false) /\
      (is_array_item = true /\ is_simple_array = true <->
       (2 <= length clean)%nat /\ last parts = Some marker /\
       In marker (removelast parts))
  end.
Proof.
  intros parts clean. unfold parse_field_path.
  fold parts. fold clean.
  destruct (Nat.eqb_spec (length clean) 1) as [Hone|Hne].
  - destruct clean as [|c [|c' tl]] eqn:Hclean; simpl in Hone; try discriminate.
    split; [reflexivity|]. split; [intros _; split; reflexivity|].
    split.
    + intros [? _]. discriminate.
    + intros [Hlen _]. simpl in Hlen. lia.
  - destruct (last clean) as [l|] eqn:Hlast.
    + pose proof (last_removelast _ _ Hlast) as Hsplit.
      assert (Hlen : (2 <= length clean)%nat).
      { destruct clean as [|c [|c' tl]]; simpl in *; try discriminate; try lia. }
      split; [assumption|]. split.
      * intros Hnil. rewrite Hnil in Hsplit. rewrite Hsplit in Hne. simpl in Hne. lia.
      * split.
        -- intros [Hai Hsa]. split; [assumption|].
           apply andb_true_iff in Hsa as [_ Hsa].
           destruct (last parts) as [lp|] eqn:Hlp; [|discriminate].
           apply is_marker_spec in Hsa. subst lp. split; [reflexivity|].
           destruct (1 <? length parts)%nat; [|discriminate].
           now apply existsb_is_marker.
        -- intros (_ & Hlp & Hin).
           assert (Hparts : (2 <= length parts)%nat).
           { rewrite (last_removelast _ _ Hlp), length_app. simpl.
             destruct (removelast parts); [destruct Hin|simpl; lia]. }
           split.
           ++ destruct (Nat.ltb_spec 1 (length parts)); [|lia].
              now apply existsb_is_marker.
           ++ apply andb_true_iff. split; [apply Nat.leb_le; lia|].
              rewrite Hlp. reflexivity.
    + apply last_None in Hlast. split; [reflexivity|assumption].
Qed.

(** C2 (as stated) fails: a path with an inner marker that also ends in the
    marker carries both flags. *)
Lemma parse_field_path_flags_overlap :
  parse_field_path "Envs.N.Tags.N" = Ok (["Envs"], "Tags", true, true).
Proof. reflexivity. Qed.

(** C3.  For segments [a], [b], [c] the path [a.b.c] is split into the
    ownership path [[a; b]] and the leaf [c], as the round-trip naming
    property says.  On the two-segment path [x.N] the classifier returns the
    root field [x] with the simple-array flag cleared, not set. *)
Theorem parse_field_path_round_trip_naming (a b c x : string) :
  is_segment a = true -> is_segment b = true -> is_segment c = true ->
  is_segment x = true ->
  parse_field_path (a +:+ "." +:+ b +:+ "." +:+ c) = Ok ([a; b], c, false, false) /\
  parse_field_path (x +:+ ".N") = Ok ([], x, false, false).
Proof.
  intros [Ha Ha']%is_segment_spec [Hb Hb']%is_segment_spec
         [Hc Hc']%is_segment_spec [Hx Hx']%is_segment_spec.
  unfold parse_field_path. split.
  - change (a +:+ "." +:+ b +:+ "." +:+ c)
      with (a +:+ String "." (b +:+ String "." c)).
    rewrite (split_append a _ Ha), (split_append b _ Hb), (split_segment c Hc).
    simpl. rewrite Ha', Hb', Hc'. reflexivity.
  - change (x +:+ ".N") with (x +:+ String "." "N").
    rewrite (split_append x _ Hx). simpl. rewrite Hx'. reflexivity.
Qed.

Lemma parse_field_path_round_trip_naming_witness :
  parse_field_path "A.B.C" = Ok (["A"; "B"], "C", false, false) /\
  parse_field_path "X.N" = Ok ([], "X", false, false).
Proof.
  apply (parse_field_path_round_trip_naming "A" "B" "C" "X"); reflexivity.
Defined.

(** * Identifier normaliser *)

Section SnakeCase.

Lemma sub_scan_skip m k s : sub_scan m k s = sub_scan m 0 (str_drop k s).
Proof.
  revert s. induction k as [|k IH]; intros s.
  - destruct s; reflexivity.
  - destruct s as [|c s]; [reflexivity|]. simpl. apply IH.
Qed.

(** A scan leaves a string alone when the pattern matches at none of its
    suffixes; [P] is any property of strings passed on to tails. *)
Lemma sub_scan_fixed (m : string -> option (string * nat)) (P : string -> Prop) :
  (forall c s, P (String c s) -> P s) ->
  (forall s, P s -> m s = None) ->
  forall s, P s -> sub_scan m 0 s = s.
Proof.
  intros Htail Hnone. induction s as [|c s IH]; intros HP; [reflexivity|].
  simpl. rewrite (Hnone _ HP). f_equal. apply IH. eapply Htail, HP.
Qed.





Lemma all_chars_tail p c s : all_chars p (String c s) = true -> all_chars p s = true.
Proof. simpl. intros H. now apply andb_true_iff in H as [_ H]. Qed.

Lemma step_one_none s : all_chars not_upper s = true -> match_step_one s = None.
Proof.
  destruct s as [|c s]; [reflexivity|]. simpl. unfold not_upper.
  intros H. apply andb_true_iff in H as [Hc _].
  destruct (is_upper c); [discriminate|reflexivity].
Qed.

Lemma step_two_none s : all_chars not_upper s = true -> match_step_two s = None.
Proof.
  destruct s as [|a [|b s]]; try reflexivity. simpl. unfold not_upper.
  intros H. apply andb_true_iff in H as [_ H]. apply andb_true_iff in H as [Hb _].
  destruct (is_upper b); [discriminate|]. now rewrite andb_false_r.
Qed.

Lemma no_double_underscore_tail c s :
  no_double_underscore (String c s) = true -> no_double_underscore s = true.
Proof. simpl. intros H. now apply andb_true_iff in H as [_ H]. Qed.

Lemma underscores_none s : no_double_underscore s = true -> match_underscores s = None.
Proof.
  destruct s as [|a s]; [reflexivity|]. simpl.
  intros H. apply andb_true_iff in H as [H _].
  destruct (is_underscore a); [|reflexivity].
  destruct s as [|b s]; [reflexivity|]. simpl in *.
  destruct (is_underscore b); [discriminate|reflexivity].
Qed.





Lemma sub_scan_cons m c s :
  sub_scan m 0 (String c s) =
  match m (String c s) with
  | Some (repl, n) => repl +:+ sub_scan m (Nat.pred n) s
  | None => String c (sub_scan m 0 s)
  end.
Proof. reflexivity. Qed.




End SnakeCase.


(** * Name registry *)

Section Registry.

Lemma append_inj_l s x y : s +:+ x = s +:+ y -> x = y.
Proof.
  induction s as [|c s IH]; simpl; [trivial|].
  intros H. injection H as H. now apply IH.
Qed.

Lemma append_length s t : String.length (s +:+ t) = (String.length s + String.length t)%nat.
Proof. induction s as [|c s IH]; simpl; [reflexivity|now rewrite IH]. Qed.

Lemma append_empty_r s x : s = s +:+ x -> x = EmptyString.
Proof.
  intros H. apply (f_equal String.length) in H. rewrite append_length in H.
  destruct x; [reflexivity|simpl in H; lia].
Qed.

Lemma str_of_nat_inj i j : str_of_nat i = str_of_nat j -> i = j.
Proof.
  unfold str_of_nat. intros H.
  apply (f_equal NilEmpty.uint_of_string) in H.
  rewrite !NilEmpty.usu in H. injection H as H.
  apply (f_equal Nat.of_uint) in H.
  now rewrite !DecimalNat.Unsigned.of_to in H.
Qed.

Lemma str_of_nat_nonempty i : str_of_nat i <> EmptyString.
Proof.
  unfold str_of_nat. intros H.
  apply (f_equal NilEmpty.uint_of_string) in H.
  rewrite NilEmpty.usu in H. simpl in H. injection H as H.
  pose proof (DecimalNat.Unsigned.of_to i) as Hi. rewrite H in Hi.
  simpl in Hi. subst i. discriminate.
Qed.

Lemma candidate_name_inj b a i j :
  candidate_name b a i = candidate_name b a j -> i = j.
Proof.
  unfold candidate_name. intros H.
  do 3 apply append_inj_l in H. now apply str_of_nat_inj.
Qed.

Lemma candidate_name_not_first b a i : b +:+ "For" +:+ a <> candidate_name b a i.
Proof.
  unfold candidate_name. intros H. do 2 apply append_inj_l in H.
  apply append_empty_r in H. now apply str_of_nat_nonempty in H.
Qed.

Lemma qualify_loop_fresh fuel names b a : forall cand idx c,
  qualify_loop fuel names b a cand idx = Some c -> c ∉ names.
Proof.
  induction fuel as [|fuel IH]; intros cand idx c; simpl; [discriminate|].
  destruct (decide (cand ∈ names)) as [Hin|Hnin].
  - apply IH.
  - intros H. now injection H as <-.
Qed.

(** A loop that runs out of steps has met only registered names. *)
Lemma qualify_loop_none fuel names b a : forall cand idx,
  qualify_loop (S fuel) names b a cand idx = None ->
  cand ∈ names /\
  forall i, In i (seq idx fuel) -> candidate_name b a i ∈ names.
Proof.
  induction fuel as [|fuel IH]; intros cand idx H.
  - simpl in H. destruct (decide (cand ∈ names)); [|discriminate].
    split; [assumption|]. intros i [].
  - change (qualify_loop (S (S fuel)) names b a cand idx)
      with (if decide (cand ∈ names)
            then qualify_loop (S fuel) names b a (candidate_name b a idx) (S idx)
            else Some cand) in H.
    destruct (decide (cand ∈ names)) as [Hin|]; [|discriminate].
    apply IH in H as [H1 H2]. split; [assumption|].
    intros i [<-|Hi]; [assumption|now apply H2].
Qed.

Lemma qualify_loop_total (names : gset string) b a :
  exists c, qualify_loop (S (size names)) names b a (b +:+ "For" +:+ a) 2 = Some c.
Proof.
  destruct (qualify_loop (S (size names)) names b a (b +:+ "For" +:+ a) 2)
    as [c|] eqn:Hloop; [now exists c|].
  exfalso. apply qualify_loop_none in Hloop as [Hfirst Hrest].
  set (l := (b +:+ "For" +:+ a) :: map (candidate_name b a) (seq 2 (size names))).
  assert (Hnodup : NoDup l).
  { apply NoDup_cons. split.
    - intros Hin. apply list_elem_of_In, in_map_iff in Hin as (i & Hi & _).
      symmetry in Hi. now apply candidate_name_not_first in Hi.
    - apply NoDup_fmap_2; [intros i j; apply candidate_name_inj|].
      apply NoDup_ListNoDup, seq_NoDup. }
  assert (Hsub : list_to_set l ⊆ names).
  { intros x Hx. apply elem_of_list_to_set, list_elem_of_In in Hx.
    destruct Hx as [<-|Hx]; [assumption|].
    apply in_map_iff in Hx as (i & <- & Hi). now apply Hrest. }
  apply subseteq_size in Hsub. rewrite size_list_to_set in Hsub by assumption.
  unfold l in Hsub. simpl in Hsub. rewrite length_map, length_seq in Hsub. lia.
Qed.

(** One call: the name returned is new, and it is registered on return. *)
Lemma qualify_model_name_spec b a g :
  exists c, qualify_model_name b a g
            = Some (c, with_names g ({[c]} ∪ generated_class_names g))
            /\ (c ∉ generated_class_names g).
Proof.
  unfold qualify_model_name.
  destruct (qualify_loop_total (generated_class_names g) b a) as [c Hc].
  rewrite Hc. exists c. split; [reflexivity|]. eapply qualify_loop_fresh, Hc.
Qed.

Lemma run_ops_spec ops : forall g,
  exists returned g',
    run_ops ops g = Some (returned, g') /\
    NoDup returned /\
    (forall n, In n returned ->
       (n ∉ generated_class_names g) /\ (n ∈ generated_class_names g')) /\
    generated_class_names g ⊆ generated_class_names g'.
Proof.
  induction ops as [|[name|b a] ops IH]; intros g.
  - exists [], g. split; [reflexivity|]. split; [constructor|].
    split; [intros n []|reflexivity].
  - destruct (IH (register_class_name name g)) as (ret & g' & Hrun & Hnd & Hin & Hsub).
    exists ret, g'. simpl in *. split; [assumption|]. split; [assumption|].
    split.
    + intros n Hn. destruct (Hin n Hn) as [Hn1 Hn2].
      split; [|assumption]. intros Hg. apply Hn1. now apply elem_of_union_r.
    + intros n Hn. apply Hsub. now apply elem_of_union_r.
  - destruct (qualify_model_name_spec b a g) as (c & Hq & Hfresh).
    destruct (IH (with_names g ({[c]} ∪ generated_class_names g)))
      as (ret & g' & Hrun & Hnd & Hin & Hsub).
    exists (c :: ret), g'. simpl in *. rewrite Hq, Hrun.
    split; [reflexivity|]. split; [|split].
    + apply NoDup_cons. split; [|assumption].
      intros Hc. apply list_elem_of_In, Hin in Hc as [Hc _].
      apply Hc. apply elem_of_union_l. now apply elem_of_singleton.
    + intros n [<-|Hn].
      * split; [assumption|]. apply Hsub, elem_of_union_l. now apply elem_of_singleton.
      * destruct (Hin n Hn) as [Hn1 Hn2]. split; [|assumption].
        intros Hg. apply Hn1. now apply elem_of_union_r.
    + intros n Hn. apply Hsub. now apply elem_of_union_r.
Qed.

End Registry.

(** C5.  Within a run the uniqueness transform never hands out a name
    twice nor a name already registered: each call of [qualify_model_name]
    returns, with the name registered, a name that was not in the registry;
    and over any sequence of registry operations the returned names are
    pairwise distinct, were absent from the initial registry, are present
    in the final one, and the registry only grows. *)
Theorem qualify_model_name_never_reuses :
  (forall base_name action g,
     exists c, qualify_model_name base_name action g
               = Some (c, with_names g ({[c]} ∪ generated_class_names g))
               /\ (c ∉ generated_class_names g)) /\
  (forall ops g,
     exists returned g',
       run_ops ops g = Some (returned, g') /\
       NoDup returned /\
       (forall n, In n returned ->
          (n ∉ generated_class_names g) /\ (n ∈ generated_class_names g')) /\
       generated_class_names g ⊆ generated_class_names g').
Proof.
  split.
  - intros. apply qualify_model_name_spec.
  - intros. apply run_ops_spec.
Qed.

(** * Docstring sanitiser *)

Section Sanitiser.

Lemma append_nil_r s : s +:+ EmptyString = s.
Proof.
  induction s as [|c s IH]; [reflexivity|].
  change (String c (s +:+ EmptyString) = String c s). now rewrite IH.
Qed.

Lemma words_are_words s : Forall is_word (words s).
Proof.
  induction s as [|c s IH]; [constructor|]. simpl.
  destruct (is_space c) eqn:Hc; [exact IH|].
  assert (Hone : is_word (str1 c)).
  { split; [discriminate|]. simpl. unfold not_space. now rewrite Hc. }
  destruct s as [|d s]; [now constructor|].
  destruct (is_space d); [now constructor|].
  destruct (words (String d s)) as [|h t]; [now constructor|].
  inversion IH as [|? ? [_ Hh] Ht]; subst. constructor; [|assumption].
  split; [discriminate|]. simpl. unfold not_space at 1. now rewrite Hc.
Qed.

Lemma word_starts w : is_word w -> forall rest, starts_with_space (w +:+ rest) = false.
Proof.
  intros [Hne Hw] rest. destruct w as [|c w]; [contradiction|]. simpl in *.
  apply andb_true_iff in Hw as [Hc _]. now apply negb_true_iff in Hc.
Qed.

Lemma word_then w rest :
  all_chars not_space w = true ->
  (only_plain_spaces rest = true -> only_plain_spaces (w +:+ rest) = true) /\
  (no_space_run rest = true -> no_space_run (w +:+ rest) = true).
Proof.
  induction w as [|c w IH]; intros Hw; [split; trivial|].
  simpl in Hw. apply andb_true_iff in Hw as [Hc Hw].
  destruct (IH Hw) as [IH1 IH2]. unfold only_plain_spaces in *. simpl. split.
  - intros Hrest. now rewrite Hc, (IH1 Hrest).
  - intros Hrest. rewrite (IH2 Hrest). unfold not_space in Hc.
    apply negb_true_iff in Hc. now rewrite Hc.
Qed.

Lemma join_words l :
  Forall is_word l ->
  only_plain_spaces (join " " l) = true /\
  no_space_run (join " " l) = true /\
  starts_with_space (join " " l) = false.
Proof.
  induction 1 as [|w l Hw Hl IH]; [repeat split|].
  destruct IH as (IH1 & IH2 & IH3).
  destruct l as [|w2 l].
  - simpl. destruct Hw as [Hne Hall].
    rewrite <- (append_nil_r w).
    split; [now apply word_then|]. split; [now apply word_then|].
    now apply word_starts.
  - change (join " " (w :: w2 :: l)) with (w +:+ String " " (join " " (w2 :: l))).
    split; [|split].
    + apply word_then; [apply Hw|]. unfold only_plain_spaces in *. simpl. exact IH1.
    + apply word_then; [apply Hw|].
      change (negb (true && starts_with_space (join " " (w2 :: l)))
              && no_space_run (join " " (w2 :: l)) = true).
      now rewrite IH3, IH2.
    + now apply word_starts.
Qed.

Lemma all_chars_weaken (p q : ascii -> bool) s :
  (forall c, p c = true -> q c = true) -> all_chars p s = true -> all_chars q s = true.
Proof.
  intros Hpq. induction s as [|c s IH]; [trivial|]. simpl.
  intros H. apply andb_true_iff in H as [Hc Hs]. now rewrite (Hpq c Hc), (IH Hs).
Qed.

Lemma contains_char a s :
  all_chars (fun c => negb (Ascii.eqb a c)) s = true -> contains (str1 a) s = false.
Proof.
  induction s as [|c s IH]; [reflexivity|].
  change (all_chars (fun c => negb (Ascii.eqb a c)) (String c s))
    with (negb (Ascii.eqb a c) && all_chars (fun c => negb (Ascii.eqb a c)) s).
  change (contains (str1 a) (String c s))
    with ((if ascii_dec a c then String.prefix EmptyString s else false)
          || contains (str1 a) s).
  intros H. apply andb_true_iff in H as [Hc Hs]. rewrite (IH Hs).
  destruct (ascii_dec a c) as [->|]; [|reflexivity].
  now rewrite Ascii.eqb_refl in Hc.
Qed.

Lemma plain_space_not_newline c :
  not_space c || Ascii.eqb c " " = true ->
  negb (Ascii.eqb (ascii_of_nat 10) c) = true /\
  negb (Ascii.eqb (ascii_of_nat 13) c) = true.
Proof. destruct c as [[] [] [] [] [] [] [] []]; intros H; split; solve [reflexivity | discriminate H]. Qed.

End Sanitiser.

(** C10.  The result of the sanitiser never holds a newline, a carriage
    return or any blank other than single spaces between words.  It can
    still hold three double quotes in a row: on a run of five double quotes
    the first three are escaped and the last escaped quote meets the two
    quotes left over. *)
Theorem sanitize_docstring_five_quotes :
  (forall text,
     only_plain_spaces (sanitize_docstring text) = true /\
     no_space_run (sanitize_docstring text) = true /\
     contains nl (sanitize_docstring text) = false /\
     contains cr (sanitize_docstring text) = false) /\
  sanitize_docstring five_quotes = escaped_triple_quote +:+ String dq (str1 dq) /\
  contains triple_quote (sanitize_docstring five_quotes) = true.
Proof.
  split; [|split; reflexivity].
  intros text. unfold sanitize_docstring.
  destruct (String.eqb text EmptyString); [repeat split|].
  destruct (join_words _ (words_are_words
              (str_replace nl " " (str_replace cr " "
                 (str_replace triple_quote escaped_triple_quote text)))))
    as (H1 & H2 & _).
  split; [exact H1|]. split; [exact H2|].
  split; apply contains_char; eapply all_chars_weaken; try exact H1;
    intros c Hc; now apply plain_space_not_newline in Hc.
Qed.

(** * The CreateAgent scenario *)

Section CreateAgent.

Lemma qualify_model_name_first b a g :
  b +:+ "For" +:+ a ∉ generated_class_names g ->
  qualify_model_name b a g
  = Some (b +:+ "For" +:+ a,
          with_names g ({[b +:+ "For" +:+ a]} ∪ generated_class_names g)).
Proof.
  intros Hfresh. unfold qualify_model_name. simpl.
  destruct (decide (b +:+ "For" +:+ a ∈ generated_class_names g)); [contradiction|].
  reflexivity.
Qed.

Lemma build_graph_create_agent g :
  "EnvsItemForCreateAgent" ∉ generated_class_names g ->
  build_graph create_agent_rows "CreateAgent" g
  = Ok (mkFill
          (NestedModel.make "Root"
             [FieldInfo.make "Name" "name" "str" true false EmptyString])
          [("Envs", envs_item_model)]
          [("Envs", mkRootRef "EnvsItemForCreateAgent" true false)],
        with_names g ({["EnvsItemForCreateAgent"]} ∪ generated_class_names g)).
Proof.
  intros Hfresh. unfold build_graph.
  pose (d := match discover create_agent_rows with
             | Ok d => d
             | Err _ => empty_discovery
             end).
  assert (Hd : discover create_agent_rows = Ok d) by (vm_compute; reflexivity).
  rewrite Hd. unfold bind at 1.
  assert (Hsorted : sorted (nested_object_paths d) = ["Envs"])
    by (vm_compute; reflexivity).
  assert (Hkeys : dict_keys (array_objects_of d) = ["Envs"])
    by (vm_compute; reflexivity).
  assert (Hhas : dict_has "Envs" (array_objects_of d) = true)
    by (vm_compute; reflexivity).
  rewrite Hsorted, Hkeys.
  assert (Hplain : foldM (create_plain_model "CreateAgent" (array_objects_of d))
                     ["Envs"] ([], g) = Ok ([], g)).
  { unfold foldM, create_plain_model. rewrite Hhas. reflexivity. }
  rewrite Hplain. unfold bind at 1.
  assert (Hitem : foldM (create_item_model "CreateAgent" (nested_object_paths d))
                    ["Envs"] ([], g)
                  = Ok ([("Envs", NestedModel.new "EnvsItemForCreateAgent")],
                        with_names g ({["EnvsItemForCreateAgent"]}
                                        ∪ generated_class_names g))).
  { unfold foldM, create_item_model, create_model.
    change (split "." "Envs") with ["Envs"].
    change (_build_nested_base_name "Envs" true) with "EnvsItem".
    cbn [length Nat.eqb orb fst snd].
    rewrite (qualify_model_name_first "EnvsItem" "CreateAgent" g Hfresh).
    reflexivity. }
  rewrite Hitem. unfold bind at 1. cbn [fst snd].
  change (fold_left (wire_child (array_objects_of d)) ["Envs"]
            [("Envs", NestedModel.new "EnvsItemForCreateAgent")])
    with [("Envs", NestedModel.new "EnvsItemForCreateAgent")].
  assert (Hfill : foldM fill_row create_agent_rows
                    (mkFill (NestedModel.new "Root")
                       [("Envs", NestedModel.new "EnvsItemForCreateAgent")] [])
                  = Ok (mkFill
                          (NestedModel.make "Root"
                             [FieldInfo.make "Name" "name" "str" true false EmptyString])
                          [("Envs", envs_item_model)]
                          [("Envs", mkRootRef "EnvsItemForCreateAgent" true false)]))
    by (vm_compute; reflexivity).
  rewrite Hfill. reflexivity.
Qed.

End CreateAgent.

(** C6.  Compiling action ["CreateAgent"] with the three request rows, in
    a run that has not yet used the name [EnvsItemForCreateAgent], yields
    exactly two record types: the item type [EnvsItemForCreateAgent] with
    the optional scalar string fields [key] and [value], and the root
    [CreateAgentRequest] with the required scalar string field [name] and
    the optional field [envs], a list of the item type. *)
Theorem create_agent_scenario (g : APIStructGenerator) :
  "EnvsItemForCreateAgent" ∉ generated_class_names g ->
  exists root g',
    create_nested_structure create_agent_rows "CreateAgent"
      (register_class_name "CreateAgentRequest" g) = Ok (root, g') /\
    NestedModel.set_name "CreateAgentRequest" root = create_agent_request_model /\
    nested_models g' = [envs_item_model] /\
    generate_request_model "CreateAgent" create_agent_rows g
    = Ok (join (newline +:+ newline)
            [ NestedModel.to_class_definition 0 (base_model_name g) envs_item_model;
              NestedModel.to_class_definition 0 (base_model_name g)
                create_agent_request_model ], g') /\
    map FieldInfo.to_field_definition (NestedModel.fields create_agent_request_model)
    = [ "    name: str = Field(..., alias=" +:+ quoted "Name" +:+ ")";
        "    envs: Optional[list[EnvsItemForCreateAgent]] = Field(default=None, alias="
          +:+ quoted "Envs" +:+ ")" ] /\
    map FieldInfo.to_field_definition (NestedModel.fields envs_item_model)
    = [ "    key: Optional[str] = Field(default=None, alias=" +:+ quoted "Key" +:+ ")";
        "    value: Optional[str] = Field(default=None, alias=" +:+ quoted "Value" +:+ ")" ].
Proof.
  intros Hfresh.
  assert (Hfresh' : "EnvsItemForCreateAgent"
                    ∉ generated_class_names (register_class_name "CreateAgentRequest" g)).
  { simpl. intros [Heq|Hin]%elem_of_union; [|contradiction].
    apply elem_of_singleton in Heq. discriminate. }
  pose proof (build_graph_create_agent _ Hfresh') as Hbuild.
  eexists _, _. split; [|split; [|split; [|split; [|split]]]].
  - unfold create_nested_structure. rewrite Hbuild. reflexivity.
  - reflexivity.
  - reflexivity.
  - unfold generate_request_model. cbv zeta.
    change ("CreateAgent" +:+ "Request") with "CreateAgentRequest".
    unfold create_nested_structure. rewrite Hbuild. reflexivity.
  - reflexivity.
  - reflexivity.
Qed.

Lemma create_agent_scenario_witness :
  exists root g',
    create_nested_structure create_agent_rows "CreateAgent"
      (register_class_name "CreateAgentRequest" default_generator) = Ok (root, g') /\
    NestedModel.set_name "CreateAgentRequest" root = create_agent_request_model /\
    nested_models g' = [envs_item_model] /\
    generate_request_model "CreateAgent" create_agent_rows default_generator
    = Ok (join (newline +:+ newline)
            [ NestedModel.to_class_definition 0 "AgentKitBaseModel" envs_item_model;
              NestedModel.to_class_definition 0 "AgentKitBaseModel"
                create_agent_request_model ], g') /\
    map FieldInfo.to_field_definition (NestedModel.fields create_agent_request_model)
    = [ "    name: str = Field(..., alias=" +:+ quoted "Name" +:+ ")";
        "    envs: Optional[list[EnvsItemForCreateAgent]] = Field(default=None, alias="
          +:+ quoted "Envs" +:+ ")" ] /\
    map FieldInfo.to_field_definition (NestedModel.fields envs_item_model)
    = [ "    key: Optional[str] = Field(default=None, alias=" +:+ quoted "Key" +:+ ")";
        "    value: Optional[str] = Field(default=None, alias=" +:+ quoted "Value" +:+ ")" ].
Proof.
  apply (create_agent_scenario default_generator).
  apply (bool_decide_unpack _). vm_compute. exact I.
Defined.

(** * Rows without a name *)

Section MissingName.




End MissingName.




(** * Driver *)

Section Driver.

Lemma missing_flags_spec a flag :
  In flag (missing_flags a) <->
  exists v, In (flag, v) (client_flags a) /\ truthy v = false.
Proof.
  unfold missing_flags. rewrite in_map_iff. split.
  - intros ([f v] & <- & Hin). apply filter_In in Hin as [Hin Hv].
    exists v. split; [assumption|]. now apply negb_true_iff in Hv.
  - intros (v & Hin & Hv). exists (flag, v). split; [reflexivity|].
    apply filter_In. split; [assumption|]. simpl. now rewrite Hv.
Qed.

End Driver.

(** C9 (as amended).  The check is gated by the client output path.  When
    that path is supplied and not all of client type name, service name
    and types module are, the driver, having written the type definitions,
    raises a [ValueError] whose message lists exactly the missing flags;
    when the client output path is not supplied the three options are
    ignored and client generation is skipped without an error. *)
Theorem client_arguments_check (a : args) (data : document) (code : string)
  (g' : APIStructGenerator) :
  generate_from_api_json data (init (base_class_name a) (Some (base_class_doc a)))
  = Ok (code, g') ->
  (truthy (client_output a) = true ->
   forallb truthy [client_class_name a; service_name a; types_module a] = false ->
   main a (Ok data)
   = ([(output a, code)],
      Err (ValueError (missing_args_prefix +:+ join ", " (missing_flags a)))) /\
   forall flag, In flag (missing_flags a) <->
                exists v, In (flag, v) (client_flags a) /\ truthy v = false) /\
  (truthy (client_output a) = false ->
   main a (Ok data) = ([(output a, code)], Ok tt)).
Proof.
  intros Hgen. split.
  - intros Hout Hnot. split; [|apply missing_flags_spec].
    unfold main. rewrite Hgen, Hout.
    change (map snd (client_flags a))
      with [client_class_name a; service_name a; types_module a].
    rewrite Hnot. reflexivity.
  - intros Hout. unfold main. rewrite Hgen, Hout. reflexivity.
Qed.

Lemma client_arguments_check_witness :
  snd (main partial_client_args (Ok empty_document))
  = Err (ValueError (missing_args_prefix +:+ "--service-name, --types-module")).
Proof.
  edestruct (client_arguments_check partial_client_args empty_document) as [H _].
  - vm_compute. reflexivity.
  - destruct H as [H _]; [reflexivity|reflexivity|].
    rewrite H. reflexivity.
Defined.

(** C9 (as stated) fails: with a client type name but no client output
    path (and no service name or types module) the driver ends normally,
    having written only the type definitions. *)
Lemma partial_client_arguments_skipped :
  truthy (client_class_name ungated_client_args) = true /\
  truthy (service_name ungated_client_args) = false /\
  snd (main ungated_client_args (Ok empty_document)) = Ok tt /\
  map fst (fst (main ungated_client_args (Ok empty_document))) = ["generated_types.py"].
Proof. vm_compute. repeat split. Qed.

(** * Reachability *)

(** C4.  For the single request row ["A.B.N.C"] the builder creates the
    nodes [AForX] and [ABItemForX] and leaves the root without any field:
    no root-level reference is synthesised, so neither node is reachable
    from the root. *)
Theorem nested_array_path_unreachable :
  exists root g',
    create_nested_structure [row "A.B.N.C"] "X" default_generator = Ok (root, g') /\
    NestedModel.fields root = [] /\
    map NestedModel.name (nested_models g') = ["AForX"; "ABItemForX"] /\
    map (reachable root (nested_models g')) (nested_models g') = [false; false].
Proof.
  eexists _, _. split; [vm_compute; reflexivity|].
  repeat split.
Qed.

(** * Model graph builder *)

Section Dictionaries.

Context {V : Type}.
Implicit Types (d : list (string * V)) (k : string) (v : V).

Lemma dict_get_set k k' v d :
  dict_get k' (dict_set k v d) = if String.eqb k k' then Some v else dict_get k' d.
Proof.
  induction d as [|[k0 v0] d IH]; simpl.
  - reflexivity.
  - destruct (String.eqb_spec k0 k) as [->|Hne]; simpl.
    + destruct (String.eqb k k'); reflexivity.
    + rewrite IH. destruct (String.eqb_spec k k') as [->|Hne'].
      * destruct (String.eqb_spec k0 k'); [contradiction|reflexivity].
      * reflexivity.
Qed.

Lemma dict_has_set k k' v d :
  dict_has k' (dict_set k v d) = String.eqb k k' || dict_has k' d.
Proof.
  unfold dict_has. rewrite dict_get_set. destruct (String.eqb k k'); reflexivity.
Qed.

Lemma dict_get_filter (f : string -> bool) k d :
  dict_get k (List.filter (fun kv => f (fst kv)) d)
  = if f k then dict_get k d else None.
Proof.
  induction d as [|[k0 v0] d IH]; simpl.
  - now destruct (f k).
  - destruct (f k0) eqn:Hf0; simpl.
    + destruct (String.eqb_spec k0 k) as [->|Hne]; [now rewrite Hf0|exact IH].
    + destruct (String.eqb_spec k0 k) as [->|Hne]; [now rewrite IH, Hf0|exact IH].
Qed.

Lemma dict_keys_has k d : In k (dict_keys d) <-> dict_has k d = true.
Proof.
  unfold dict_has, dict_keys. induction d as [|[k0 v0] d IH]; simpl.
  - split; [intros []|discriminate].
  - destruct (String.eqb_spec k0 k) as [->|Hne].
    + split; [reflexivity|now left].
    + rewrite <- IH. split; [intros [?|?]; [contradiction|assumption]|now right].
Qed.

End Dictionaries.

Section Discovery.

Lemma dict_has_defaultdict_add k x P (d : list (string * gset string)) :
  dict_has P (defaultdict_add k x d) = String.eqb k P || dict_has P d.
Proof.
  unfold defaultdict_add. destruct (dict_get k d); apply dict_has_set.
Qed.

Lemma elem_of_fold_union (l : list string) : forall (s : gset string) P,
  P ∈ fold_left (fun s q => {[q]} ∪ s) l s <-> P ∈ s \/ In P l.
Proof.
  induction l as [|q l IH]; intros s P; simpl.
  - split; [now left|intros [?|[]]; assumption].
  - rewrite IH, elem_of_union, elem_of_singleton. split.
    + intros [[->|?]|?]; auto.
    + intros [?|[->|?]]; auto.
Qed.

Lemma nested_prefixes_full path_parts :
  path_parts <> [] -> In (join "." path_parts) (nested_prefixes path_parts).
Proof.
  intros Hne. unfold nested_prefixes. apply in_map_iff.
  exists (length path_parts). split.
  - now rewrite firstn_all.
  - apply in_seq. destruct path_parts; [contradiction|simpl; lia].
Qed.

Lemma row_class_of_parse p n r :
  p_Name p = Some n -> parse_field_path n = Ok r -> row_class p = Some r.
Proof. unfold row_class. now intros -> ->. Qed.

(** What one row adds to the three collections of the discovery pass. *)
Lemma discover_row_ok p d d' :
  discover_row p d = Ok d' ->
  exists path_parts leaf ai sa,
    row_class p = Some (path_parts, leaf, ai, sa) /\
    (forall P, dict_has P (array_fields d') = true <->
               dict_has P (array_fields d) = true \/
               (path_parts <> [] /\ ai = true /\ join "." path_parts = P)) /\
    (forall P, dict_has P (normal_fields d') = true <->
               dict_has P (normal_fields d) = true \/
               (path_parts <> [] /\ ai = false /\ join "." path_parts = P)) /\
    (forall P, P ∈ nested_object_paths d' <->
               P ∈ nested_object_paths d \/ In P (nested_prefixes path_parts)).
Proof.
  unfold discover_row, get_Name.
  destruct (p_Name p) as [n|] eqn:Hn; simpl; [|discriminate].
  destruct (parse_field_path n) as [[[[pp leaf] ai] sa]|e] eqn:Hparse; simpl;
    [|discriminate].
  intros H. exists pp, leaf, ai, sa.
  split; [eapply row_class_of_parse; eassumption|].
  destruct pp as [|seg pp].
  - simpl in H. injection H as <-.
    split; [|split]; intros P; (split; [now left|]).
    + intros [?|(Hne & _)]; [assumption|now contradiction Hne].
    + intros [?|(Hne & _)]; [assumption|now contradiction Hne].
    + intros [?|[]]; assumption.
  - change (0 <? length (seg :: pp))%nat with true in H. cbv iota zeta in H.
    injection H as <-. cbn [array_fields normal_fields nested_object_paths].
    split; [|split]; intros P.
    + destruct ai.
      * rewrite dict_has_defaultdict_add, orb_true_iff, String.eqb_eq. split.
        -- intros [Heq|?]; [right; repeat split; [discriminate|exact Heq]|now left].
        -- intros [?|(_ & _ & Heq)]; [now right|left; exact Heq].
      * split; [now left|]. intros [?|(_ & ? & _)]; [assumption|discriminate].
    + destruct ai.
      * split; [now left|]. intros [?|(_ & ? & _)]; [assumption|discriminate].
      * rewrite dict_has_defaultdict_add, orb_true_iff, String.eqb_eq. split.
        -- intros [Heq|?]; [right; repeat split; [discriminate|exact Heq]|now left].
        -- intros [?|(_ & _ & Heq)]; [now right|left; exact Heq].
    + exact (elem_of_fold_union (nested_prefixes (seg :: pp)) (nested_object_paths d) P).
Qed.

(** The collections after the whole discovery pass. *)
Lemma discover_from_spec parameters : forall d0 d,
  foldM discover_row parameters d0 = Ok d ->
  (forall p, In p parameters -> exists r, row_class p = Some r) /\
  (forall P, dict_has P (array_fields d) = true <->
             dict_has P (array_fields d0) = true \/
             exists p, In p parameters /\ leaf_under P true p) /\
  (forall P, dict_has P (normal_fields d) = true <->
             dict_has P (normal_fields d0) = true \/
             exists p, In p parameters /\ leaf_under P false p) /\
  (forall P, P ∈ nested_object_paths d0 -> P ∈ nested_object_paths d) /\
  (forall p b P, In p parameters -> leaf_under P b p -> P ∈ nested_object_paths d).
Proof.
  induction parameters as [|p0 rest IH]; intros d0 d H; simpl in H.
  - injection H as <-. split; [intros p []|].
    split; [|split; [|split]].
    + intros P. split; [now left|intros [?|(p & [] & _)]; assumption].
    + intros P. split; [now left|intros [?|(p & [] & _)]; assumption].
    + trivial.
    + intros p b P [].
  - destruct (discover_row p0 d0) as [d1|e] eqn:Hrow; simpl in H; [|discriminate].
    apply discover_row_ok in Hrow
      as (pp & leaf & ai & sa & Hclass & Haf & Hnf & Hnested).
    destruct (IH _ _ H) as (IHc & IHaf & IHnf & IHmono & IHnested).
    assert (Hleaf : forall b P, leaf_under P b p0 <->
                                pp <> [] /\ ai = b /\ join "." pp = P).
    { intros b P. unfold leaf_under. rewrite Hclass. split.
      - intros (pp' & leaf' & sa' & Heq & Hne & Hj). injection Heq as <- <- <- <-.
        auto.
      - intros (Hne & <- & Hj). exists pp, leaf, sa. auto. }
    split; [|split; [|split; [|split]]].
    + intros p [<-|Hin]; [eauto|now apply IHc].
    + intros P. rewrite IHaf, Haf. split.
      * intros [[?|Hnew]|(p & Hin & Hp)].
        -- now left.
        -- right. exists p0. split; [now left|]. now apply Hleaf.
        -- right. exists p. split; [now right|assumption].
      * intros [?|(p & [<-|Hin] & Hp)].
        -- left. now left.
        -- left. right. now apply Hleaf.
        -- right. exists p. auto.
    + intros P. rewrite IHnf, Hnf. split.
      * intros [[?|Hnew]|(p & Hin & Hp)].
        -- now left.
        -- right. exists p0. split; [now left|]. now apply Hleaf.
        -- right. exists p. split; [now right|assumption].
      * intros [?|(p & [<-|Hin] & Hp)].
        -- left. now left.
        -- left. right. now apply Hleaf.
        -- right. exists p. auto.
    + intros P HP. apply IHmono, Hnested. now left.
    + intros p b P [<-|Hin] Hp; [|eapply IHnested; eassumption].
      apply Hleaf in Hp as (Hne & _ & <-).
      apply IHmono, Hnested. right. now apply nested_prefixes_full.
Qed.

Lemma dict_has_array_objects d P :
  dict_has P (array_objects_of d)
  = dict_has P (array_fields d) && negb (dict_has P (normal_fields d)).
Proof.
  unfold array_objects_of. unfold dict_has at 1.
  rewrite (dict_get_filter (fun k => negb (dict_has k (normal_fields d)))).
  destruct (dict_has P (normal_fields d)); simpl.
  - now rewrite andb_false_r.
  - now rewrite andb_true_r.
Qed.


End Discovery.

Section Creation.

Variable action : string.
Variable array_objects : list (string * gset string).

Lemma qualify_loop_qualified fuel names b a : forall cand idx c,
  qualify_loop fuel names b a cand idx = Some c ->
  c = cand \/ exists i, c = candidate_name b a i.
Proof.
  induction fuel as [|fuel IH]; intros cand idx c; simpl; [discriminate|].
  destruct (decide (cand ∈ names)).
  - intros H. apply IH in H as [->|H]; [right; now exists idx|now right].
  - intros H. injection H as <-. now left.
Qed.

Lemma create_model_ok path b st :
  exists n g',
    create_model path b action st
    = Ok (dict_set path (NestedModel.new n) (fst st), g') /\
    is_qualified (_build_nested_base_name path b) action n.
Proof.
  unfold create_model.
  destruct (qualify_model_name_spec (_build_nested_base_name path b) action (snd st))
    as (c & Hq & _).
  rewrite Hq. eexists c, _. split; [reflexivity|].
  unfold qualify_model_name in Hq.
  destruct (qualify_loop _ _ _ _ _ _) as [c'|] eqn:Hloop; [|discriminate].
  injection Hq as -> _.
  apply qualify_loop_qualified in Hloop as [->|[i ->]]; [now left|right; now exists i].
Qed.

(** Both creation loops: a model is created for the paths of the list
    that pass the loop's test; every creation succeeds. *)
Lemma foldM_create (f : string -> model_store * APIStructGenerator
                        -> result (model_store * APIStructGenerator))
  (cond : string -> bool) (b : bool) :
  (forall path st,
     f path st = if cond path then create_model path b action st else Ok st) ->
  forall l,
    (forall path, In path l -> cond path = true -> dict_has path array_objects = b) ->
    forall st, store_named action array_objects (fst st) ->
    exists st',
      foldM f l st = Ok st' /\
      store_named action array_objects (fst st') /\
      (forall P, dict_has P (fst st) = true -> dict_has P (fst st') = true) /\
      (forall P, In P l -> cond P = true -> dict_has P (fst st') = true).
Proof.
  intros Hf. induction l as [|path l IH]; intros Hcond st Hnamed.
  - exists st. split; [reflexivity|]. split; [assumption|].
    split; [trivial|intros P []].
  - simpl. rewrite Hf. destruct (cond path) eqn:Hc.
    + destruct (create_model_ok path b st) as (n & g' & -> & Hq). simpl.
      destruct (IH (fun q Hq' => Hcond q (or_intror Hq'))
                  (dict_set path (NestedModel.new n) (fst st), g'))
        as (st' & Hrun & Hnamed' & Hmono & Hcover).
      { intros P m. cbn [fst]. rewrite dict_get_set.
        destruct (String.eqb_spec path P) as [<-|Hne]; [|apply Hnamed].
        intros H. injection H as <-. unfold name_ok.
        rewrite (Hcond path (or_introl eq_refl) Hc). exact Hq. }
      exists st'. split; [assumption|]. split; [assumption|]. split.
      * intros P HP. apply Hmono. cbn [fst]. rewrite dict_has_set, HP.
        apply orb_true_r.
      * intros P [<-|Hin] HcP; [|now apply Hcover].
        apply Hmono. cbn [fst]. rewrite dict_has_set, String.eqb_refl. reflexivity.
    + simpl.
      destruct (IH (fun q Hq' => Hcond q (or_intror Hq')) st Hnamed)
        as (st' & Hrun & Hnamed' & Hmono & Hcover).
      exists st'. split; [assumption|]. split; [assumption|]. split; [assumption|].
      intros P [<-|Hin] HcP; [congruence|now apply Hcover].
Qed.

End Creation.

Section Extension.

Lemma store_extends_refl st : store_extends st st.
Proof.
  intros P. destruct (dict_get P st); [|exact I]. split; [reflexivity|apply incl_refl].
Qed.

Lemma store_extends_trans st1 st2 st3 :
  store_extends st1 st2 -> store_extends st2 st3 -> store_extends st1 st3.
Proof.
  intros H12 H23 P. specialize (H12 P). specialize (H23 P).
  destruct (dict_get P st1), (dict_get P st2), (dict_get P st3); try easy.
  destruct H12 as [Hn1 Hi1], H23 as [Hn2 Hi2]. split; [congruence|].
  eapply incl_tran; eassumption.
Qed.

Lemma store_extends_set path m f st :
  dict_get path st = Some m ->
  store_extends st (dict_set path (NestedModel.add_field f m) st).
Proof.
  intros Hget P. rewrite dict_get_set.
  destruct (String.eqb_spec path P) as [<-|Hne].
  - rewrite Hget. split; [reflexivity|]. simpl. apply incl_appl, incl_refl.
  - destruct (dict_get P st); [|exact I]. split; [reflexivity|apply incl_refl].
Qed.

Lemma store_add_field_extends path f st : store_extends st (store_add_field path f st).
Proof.
  unfold store_add_field. destruct (dict_get path st) eqn:Hget.
  - now apply store_extends_set.
  - apply store_extends_refl.
Qed.

Lemma wire_child_extends ao st full_path : store_extends st (wire_child ao st full_path).
Proof.
  unfold wire_child. destruct (_ <? 2)%nat; [apply store_extends_refl|].
  destruct (dict_get _ st) as [parent|] eqn:Hget; [|apply store_extends_refl].
  destruct (NestedModel.has_python_name _ parent); [apply store_extends_refl|].
  now apply store_extends_set.
Qed.

Lemma fold_wire_extends ao l : forall st,
  store_extends st (fold_left (wire_child ao) l st).
Proof.
  induction l as [|p l IH]; intros st; simpl; [apply store_extends_refl|].
  eapply store_extends_trans; [apply wire_child_extends|apply IH].
Qed.

Lemma store_extends_has st st' P :
  store_extends st st' -> dict_has P st' = dict_has P st.
Proof.
  intros H. specialize (H P). unfold dict_has.
  destruct (dict_get P st), (dict_get P st'); easy.
Qed.


Ltac fill_cases :=
  repeat match goal with
         | |- context [if ?b then _ else _] => destruct b eqn:?
         | |- context [match dict_get ?k ?s with _ => _ end] =>
             destruct (dict_get k s) eqn:?
         end.

Lemma fill_row_extends p s s' :
  fill_row p s = Ok s' -> store_extends (fs_store s) (fs_store s').
Proof.
  unfold fill_row, get_Name.
  destruct (p_Name p) as [n|]; simpl; [|discriminate].
  destruct (parse_field_path n) as [[[[pp leaf] ai] sa]|e]; simpl; [|discriminate].
  destruct pp as [|first rest].
  - intros H. injection H as <-. apply store_extends_refl.
  - cbv zeta. fill_cases; intros H; injection H as <-; cbn [fs_store];
      first [apply store_extends_refl | apply store_add_field_extends].
Qed.


Lemma foldM_fill_extends parameters : forall s s',
  foldM fill_row parameters s = Ok s' -> store_extends (fs_store s) (fs_store s').
Proof.
  induction parameters as [|p rest IH]; intros s s' H; simpl in H.
  - injection H as <-. apply store_extends_refl.
  - destruct (fill_row p s) as [s1|] eqn:Hrow; simpl in H; [|discriminate].
    eapply store_extends_trans; [eapply fill_row_extends, Hrow|now apply IH].
Qed.




End Extension.

Section Builder.

Lemma in_sorted (X : gset string) P : In P (sorted X) <-> P ∈ X.
Proof.
  unfold sorted. rewrite <- list_elem_of_In, merge_sort_Permutation.
  apply elem_of_elements.
Qed.


(** The two creation loops always succeed; afterwards every discovered
    path has a node, named for its classification. *)
Lemma creation_spec action d g :
  exists st,
    (do st1 <- foldM (create_plain_model action (array_objects_of d))
                 (sorted (nested_object_paths d)) ([], g);
     foldM (create_item_model action (nested_object_paths d))
       (dict_keys (array_objects_of d)) st1) = Ok st /\
    store_named action (array_objects_of d) (fst st) /\
    (forall P, P ∈ nested_object_paths d -> dict_has P (fst st) = true).
Proof.
  destruct (foldM_create action (array_objects_of d)
              (create_plain_model action (array_objects_of d))
              (fun p => negb (dict_has p (array_objects_of d))) false
              (fun path st => eq_refl)
              (sorted (nested_object_paths d))
              (fun path _ Hc => proj1 (negb_true_iff _) Hc)
              ([], g))
    as (st1 & Hrun1 & Hnamed1 & _ & Hcover1).
  { intros P m. discriminate. }
  destruct (foldM_create action (array_objects_of d)
              (create_item_model action (nested_object_paths d))
              (fun p => (length (split "." p) =? 1)%nat
                        || bool_decide (p ∈ nested_object_paths d)) true
              (fun path st => eq_refl)
              (dict_keys (array_objects_of d))
              (fun path Hin _ => proj1 (dict_keys_has _ _) Hin)
              st1 Hnamed1)
    as (st2 & Hrun2 & Hnamed2 & Hmono2 & Hcover2).
  exists st2. rewrite Hrun1. simpl. split; [exact Hrun2|]. split; [exact Hnamed2|].
  intros P HP. destruct (dict_has P (array_objects_of d)) eqn:Hao.
  - apply Hcover2; [now apply dict_keys_has|].
    rewrite (bool_decide_eq_true_2 _ HP). apply orb_true_r.
  - apply Hmono2, Hcover1; [now apply in_sorted|]. now rewrite Hao.
Qed.

Lemma build_graph_unfold parameters action g :
  build_graph parameters action g =
  match discover parameters with
  | Err e => Err e
  | Ok d =>
      match (do st1 <- foldM (create_plain_model action (array_objects_of d))
                         (sorted (nested_object_paths d)) ([], g);
             foldM (create_item_model action (nested_object_paths d))
               (dict_keys (array_objects_of d)) st1) with
      | Err e => Err e
      | Ok st =>
          match foldM fill_row parameters
                  (mkFill (NestedModel.new "Root")
                     (fold_left (wire_child (array_objects_of d))
                        (sorted (nested_object_paths d)) (fst st)) []) with
          | Err e => Err e
          | Ok s => Ok (s, snd st)
          end
      end
  end.
Proof.
  unfold build_graph, bind.
  destruct (discover parameters) as [d|]; [|reflexivity].
  destruct (foldM (create_plain_model _ _) _ _) as [st1|]; [|reflexivity].
  destruct (foldM (create_item_model _ _) _ _) as [st2|]; reflexivity.
Qed.



End Builder.




(** * Further properties of the path classifier *)

Section PathRoundTrip.

Lemma join_cons_cons x y l : join "." (x :: y :: l) = x +:+ String "." (join "." (y :: l)).
Proof. reflexivity. Qed.

Lemma join_cons_char c h t : join "." (String c h :: t) = String c (join "." (h :: t)).
Proof. destruct t; reflexivity. Qed.

(** [".".join(s.split("."))] gives [s] back. *)
Lemma join_split s : join "." (split "." s) = s.
Proof.
  induction s as [|c s IH]; [reflexivity|].
  change (split "." (String c s))
    with (if Ascii.eqb c "." then EmptyString :: split "." s
          else match split "." s with
               | [] => [str1 c]
               | h :: t => String c h :: t
               end).
  pose proof (split_nonempty "." s) as Hne.
  destruct (split "." s) as [|h t]; [contradiction|].
  destruct (Ascii.eqb_spec c ".") as [->|_].
  - rewrite join_cons_cons, IH. reflexivity.
  - rewrite join_cons_char, IH. reflexivity.
Qed.

Lemma split_dot_free s : Forall (fun x => all_chars not_dot x = true) (split "." s).
Proof.
  induction s as [|c s IH]; [repeat constructor|].
  change (split "." (String c s))
    with (if Ascii.eqb c "." then EmptyString :: split "." s
          else match split "." s with
               | [] => [str1 c]
               | h :: t => String c h :: t
               end).
  destruct (Ascii.eqb c ".") eqn:Hc; [now constructor|].
  assert (Hnd : not_dot c = true) by (unfold not_dot; now rewrite Hc).
  destruct (split "." s) as [|h t].
  - repeat constructor. simpl. now rewrite Hnd.
  - inversion IH; subst. constructor; [|assumption]. simpl. now rewrite Hnd.
Qed.

(** [".".join(l).split(".")] gives [l] back when no element holds a dot. *)
Lemma split_join l :
  l <> [] -> Forall (fun x => all_chars not_dot x = true) l ->
  split "." (join "." l) = l.
Proof.
  induction l as [|x l IH]; [contradiction|]. intros _ Hall.
  inversion Hall as [|? ? Hx Hl]; subst.
  destruct l as [|y l].
  - now apply split_segment.
  - rewrite join_cons_cons, (split_append x _ Hx). f_equal.
    apply IH; [discriminate|assumption].
Qed.

(** The classifier returns the non-marker segments, in order. *)
Lemma parse_field_path_clean field_name pp leaf ai sa :
  parse_field_path field_name = Ok (pp, leaf, ai, sa) ->
  List.filter (fun p => negb (is_marker p)) (split "." field_name) = pp ++ [leaf].
Proof.
  unfold parse_field_path.
  destruct (List.filter _ _) as [|c [|c' tl]] eqn:Hclean.
  - discriminate.
  - intros H. now injection H as <- <- _ _.
  - change (length (c :: c' :: tl) =? 1)%nat with false. cbv iota.
    destruct (last (c :: c' :: tl)) as [l|] eqn:Hlast; [|discriminate].
    intros H. injection H as <- <- _ _.
    exact (last_removelast (c :: c' :: tl) l Hlast).
Qed.

Lemma Forall_filter_segments l :
  Forall (fun x => all_chars not_dot x = true) l ->
  Forall (fun x => is_segment x = true) (List.filter (fun p => negb (is_marker p)) l).
Proof.
  induction 1 as [|x l Hx Hl IH]; [constructor|]. simpl.
  destruct (is_marker x) eqn:Hm; simpl; [assumption|].
  constructor; [|assumption]. unfold is_segment. now rewrite Hx, Hm.
Qed.

End PathRoundTrip.

(** X1.  Whatever the classifier returns is made of proper segments: no
    element of the ownership path, nor the leaf, holds a dot or is the
    array marker; and the dictionary key built from a non-empty ownership
    path splits back into that path. *)
Theorem ownership_path_key_round_trip (field_name : string) (path_parts : list string)
  (leaf : string) (is_array_item is_simple_array : bool) :
  parse_field_path field_name = Ok (path_parts, leaf, is_array_item, is_simple_array) ->
  Forall (fun x => is_segment x = true) (path_parts ++ [leaf]) /\
  (path_parts <> [] -> split "." (join "." path_parts) = path_parts).
Proof.
  intros Hparse. apply parse_field_path_clean in Hparse.
  assert (Hseg : Forall (fun x => is_segment x = true) (path_parts ++ [leaf])).
  { rewrite <- Hparse. apply Forall_filter_segments, split_dot_free. }
  split; [exact Hseg|].
  intros Hne. apply split_join; [assumption|].
  apply Forall_app in Hseg as [Hpp _].
  eapply Forall_impl; [exact Hpp|].
  intros x Hx. now apply is_segment_spec in Hx as [Hx _].
Qed.

Lemma ownership_path_key_round_trip_witness :
  Forall (fun x => is_segment x = true) (["Auth"; "Jwt"] ++ ["Key"]) /\
  (["Auth"; "Jwt"] <> [] -> split "." (join "." ["Auth"; "Jwt"]) = ["Auth"; "Jwt"]).
Proof.
  apply (ownership_path_key_round_trip "Auth.N.Jwt.Key" ["Auth"; "Jwt"] "Key" true false).
  reflexivity.
Defined.

(** X2.  A path without marker segments is only cut, never changed: both
    flags are false and joining the ownership path and the leaf with dots
    gives the path back. *)
Theorem marker_free_path_round_trip (field_name : string) :
  Forall (fun x => is_marker x = false) (split "." field_name) ->
  exists path_parts leaf,
    parse_field_path field_name = Ok (path_parts, leaf, false, false) /\
    join "." (path_parts ++ [leaf]) = field_name.
Proof.
  intros Hfree. unfold parse_field_path.
  assert (Hclean : List.filter (fun p => negb (is_marker p)) (split "." field_name)
                   = split "." field_name).
  { induction Hfree as [|x l Hx Hl IH]; [reflexivity|]. simpl. now rewrite Hx, IH. }
  rewrite Hclean.
  pose proof (join_split field_name) as Hjoin.
  pose proof (split_nonempty "." field_name) as Hne.
  destruct (split "." field_name) as [|c [|c' tl]] eqn:Hsplit; [contradiction| |].
  - exists [], c. split; [reflexivity|exact Hjoin].
  - change (length (c :: c' :: tl) =? 1)%nat with false. cbv iota.
    destruct (last (c :: c' :: tl)) as [l|] eqn:Hlast;
      [|apply last_None in Hlast; discriminate].
    pose proof (last_removelast _ _ Hlast) as Hparts.
    exists (removelast (c :: c' :: tl)), l.
    rewrite <- Hparts. split; [|exact Hjoin].
    assert (Hl : is_marker l = false).
    { apply (proj1 (List.Forall_forall _ _) Hfree). rewrite Hparts.
      apply in_or_app. right. now left. }
    assert (Hrest : existsb is_marker (removelast (c :: c' :: tl)) = false).
    { apply not_true_is_false. intros Hex. apply existsb_exists in Hex as (x & Hin & Hx).
      rewrite (proj1 (List.Forall_forall _ _) Hfree x) in Hx; [discriminate|].
      rewrite Hparts. apply in_or_app. now left. }
    change (1 <? length (c :: c' :: tl))%nat with true. cbv iota.
    rewrite Hrest, Hl, andb_false_r. reflexivity.
Qed.

Lemma marker_free_path_round_trip_witness :
  exists path_parts leaf,
    parse_field_path "AuthorizerConfiguration.KeyAuth.ApiKey"
    = Ok (path_parts, leaf, false, false) /\
    join "." (path_parts ++ [leaf]) = "AuthorizerConfiguration.KeyAuth.ApiKey".
Proof.
  apply (marker_free_path_round_trip "AuthorizerConfiguration.KeyAuth.ApiKey").
  repeat constructor.
Defined.

(** * Further properties of the identifier normaliser *)

Section SnakeNormalForm.



End SnakeNormalForm.


Section PascalCase.

Lemma append_assoc s t u : (s +:+ t) +:+ u = s +:+ (t +:+ u).
Proof.
  induction s as [|c s IH]; [reflexivity|].
  change (String c ((s +:+ t) +:+ u) = String c (s +:+ (t +:+ u))). now rewrite IH.
Qed.

Lemma append_cons c s t : String c s +:+ t = String c (s +:+ t).
Proof. reflexivity. Qed.

Lemma concat_cons w ws :
  String.concat EmptyString (w :: ws) = w +:+ String.concat EmptyString ws.
Proof.
  destruct ws as [|w' ws]; [|reflexivity].
  simpl. induction w as [|c w IH]; [reflexivity|].
  rewrite append_cons. now f_equal.
Qed.

Lemma join_underscored w ws : join "_" (w :: ws) = w +:+ underscored ws.
Proof.
  revert w. induction ws as [|w' ws IH]; intros w.
  - unfold underscored. simpl. induction w as [|c w IHw]; [reflexivity|].
    rewrite append_cons. now f_equal.
  - change (join "_" (w :: w' :: ws)) with (w +:+ String "_" (join "_" (w' :: ws))).
    rewrite IH. unfold underscored. cbn [map]. rewrite concat_cons. reflexivity.
Qed.

Lemma lower_or_digit_not_upper c : lower_or_digit c = true -> is_upper c = false.
Proof. destruct c as [[] [] [] [] [] [] [] []]; intros H; solve [reflexivity | discriminate H]. Qed.

Lemma lower_or_digit_not_underscore c : lower_or_digit c = true -> is_underscore c = false.
Proof. destruct c as [[] [] [] [] [] [] [] []]; intros H; solve [reflexivity | discriminate H]. Qed.

Lemma upper_not_underscore c : is_upper c = true -> is_underscore c = false.
Proof. destruct c as [[] [] [] [] [] [] [] []]; intros H; solve [reflexivity | discriminate H]. Qed.

Lemma upper_not_lower_or_digit c : is_upper c = true -> is_lower c || is_digit c = false.
Proof. destruct c as [[] [] [] [] [] [] [] []]; intros H; solve [reflexivity | discriminate H]. Qed.

Lemma is_capitalised_inv w :
  is_capitalised w = true ->
  exists c d r, w = String c (String d r) /\ is_upper c = true /\
                all_chars lower_or_digit (String d r) = true.
Proof.
  destruct w as [|c [|d r]]; try discriminate. unfold is_capitalised.
  intros H. apply andb_true_iff in H as [Hc Hr]. now exists c, d, r.
Qed.

(** Step one finds nothing where no two upper-case letters are adjacent. *)
Lemma step_one_none_adjacent s : no_adjacent_upper s = true -> match_step_one s = None.
Proof.
  destruct s as [|c s]; [reflexivity|].
  cbn [no_adjacent_upper match_step_one]. intros H.
  apply andb_true_iff in H as [H _].
  destruct (is_upper c); [|reflexivity]. simpl in H.
  destruct s as [|d s]; [reflexivity|]. cbn [starts_with_upper] in H.
  apply negb_true_iff in H. cbn [match_uppers_then match_upper_lower].
  rewrite H. now destruct s.
Qed.

Lemma no_adjacent_upper_tail c s :
  no_adjacent_upper (String c s) = true -> no_adjacent_upper s = true.
Proof. cbn [no_adjacent_upper]. intros H. now apply andb_true_iff in H as [_ H]. Qed.

Lemma no_adjacent_upper_tail_run x rest :
  all_chars lower_or_digit x = true -> no_adjacent_upper rest = true ->
  no_adjacent_upper (x +:+ rest) = true.
Proof.
  intros Hx Hrest. induction x as [|c x IH]; [exact Hrest|].
  cbn [all_chars] in Hx. apply andb_true_iff in Hx as [Hc Hx].
  rewrite append_cons. cbn [no_adjacent_upper].
  rewrite (lower_or_digit_not_upper c Hc), (IH Hx). reflexivity.
Qed.

Lemma no_adjacent_upper_words ws :
  Forall (fun w => is_capitalised w = true) ws ->
  no_adjacent_upper (String.concat EmptyString ws) = true.
Proof.
  induction 1 as [|w ws Hw Hws IH]; [reflexivity|].
  rewrite concat_cons.
  apply is_capitalised_inv in Hw as (c & d & r & -> & Hc & Hr).
  rewrite append_cons. cbn [no_adjacent_upper].
  rewrite (no_adjacent_upper_tail_run _ _ Hr IH), andb_true_r.
  rewrite append_cons. cbn [starts_with_upper].
  cbn [all_chars] in Hr. apply andb_true_iff in Hr as [Hd _].
  rewrite (lower_or_digit_not_upper d Hd). now rewrite andb_false_r.
Qed.

(** Step two over the tail of a word and the words after it: an
    underscore goes in front of each following word. *)
Lemma step_two_tail ws : forall x,
  x <> EmptyString -> all_chars lower_or_digit x = true ->
  Forall (fun w => is_capitalised w = true) ws ->
  sub_scan match_step_two 0 (x +:+ String.concat EmptyString ws) = x +:+ underscored ws.
Proof.
  induction ws as [|w ws IHws]; intros x Hne Hx Hws.
  - change (String.concat EmptyString []) with EmptyString.
    change (underscored []) with EmptyString.
    apply (sub_scan_fixed match_step_two (fun t => all_chars not_upper t = true)
             (all_chars_tail _) step_two_none).
    clear Hne. induction x as [|c x IH]; [reflexivity|].
    cbn [all_chars] in Hx. apply andb_true_iff in Hx as [Hc Hx].
    rewrite append_cons. cbn [all_chars]. unfold not_upper at 1.
    rewrite (lower_or_digit_not_upper c Hc), (IH Hx). reflexivity.
  - inversion Hws as [|? ? Hw Hws']; subst.
    apply is_capitalised_inv in Hw as (u & d & r & -> & Hu & Hr).
    rewrite concat_cons. unfold underscored. cbn [map]. rewrite concat_cons.
    fold (underscored ws).
    induction x as [|l x IHx]; [contradiction|].
    cbn [all_chars] in Hx. apply andb_true_iff in Hx as [Hl Hx].
    destruct x as [|l2 x].
    + change (String l EmptyString +:+ (String u (String d r) +:+ String.concat EmptyString ws))
        with (String l (String u (String d r +:+ String.concat EmptyString ws))).
      rewrite sub_scan_cons. cbn [match_step_two]. unfold lower_or_digit in Hl.
      rewrite Hl, Hu. cbn [andb Nat.pred].
      change (sub_scan match_step_two 1
                (String u (String d r +:+ String.concat EmptyString ws)))
        with (sub_scan match_step_two 0 (String d r +:+ String.concat EmptyString ws)).
      rewrite (IHws (String d r)); [reflexivity|discriminate|exact Hr|exact Hws'].
    + change (String l (String l2 x) +:+ ?t) with (String l (String l2 x +:+ t)).
      rewrite sub_scan_cons.
      change (String l2 x +:+ ?t) with (String l2 (x +:+ t)) at 1.
      cbn [match_step_two].
      cbn [all_chars] in Hx. pose proof Hx as Hx'.
      apply andb_true_iff in Hx' as [Hl2 _].
      rewrite (lower_or_digit_not_upper l2 Hl2), andb_false_r.
      change (String l2 (x +:+ ?t)) with (String l2 x +:+ t).
      rewrite IHx; [reflexivity|discriminate|exact Hx].
Qed.

Lemma step_two_words ws :
  Forall (fun w => is_capitalised w = true) ws ->
  re_sub match_step_two (String.concat EmptyString ws) = join "_" ws.
Proof.
  intros Hws. destruct ws as [|w ws]; [reflexivity|].
  inversion Hws as [|? ? Hw Hws']; subst.
  rewrite join_underscored, concat_cons.
  apply is_capitalised_inv in Hw as (u & d & r & -> & Hu & Hr).
  unfold re_sub.
  change (String u (String d r) +:+ ?t) with (String u (String d r +:+ t)).
  rewrite sub_scan_cons.
  change (String d r +:+ ?t) with (String d (r +:+ t)) at 1.
  cbn [match_step_two]. rewrite (upper_not_lower_or_digit u Hu). cbn [andb].
  change (String d (r +:+ ?t)) with (String d r +:+ t).
  rewrite step_two_tail; [reflexivity|discriminate|exact Hr|exact Hws'].
Qed.

Lemma no_double_underscore_run x rest :
  all_chars (fun c => negb (is_underscore c)) x = true ->
  no_double_underscore rest = true ->
  no_double_underscore (x +:+ rest) = true.
Proof.
  intros Hx Hrest. induction x as [|c x IH]; [exact Hrest|].
  cbn [all_chars] in Hx. apply andb_true_iff in Hx as [Hc Hx].
  rewrite append_cons. cbn [no_double_underscore].
  apply negb_true_iff in Hc. rewrite Hc, (IH Hx). reflexivity.
Qed.

Lemma capitalised_no_underscore w :
  is_capitalised w = true -> all_chars (fun c => negb (is_underscore c)) w = true.
Proof.
  intros (c & d & r & -> & Hc & Hr)%is_capitalised_inv.
  change (negb (is_underscore c)
          && all_chars (fun c => negb (is_underscore c)) (String d r) = true).
  rewrite (upper_not_underscore c Hc). cbn [negb andb].
  eapply all_chars_weaken; [|exact Hr].
  intros a Ha. now rewrite (lower_or_digit_not_underscore a Ha).
Qed.

Lemma no_double_underscore_words ws :
  Forall (fun w => is_capitalised w = true) ws ->
  no_double_underscore (underscored ws) = true.
Proof.
  induction 1 as [|w ws Hw Hws IH]; [reflexivity|].
  unfold underscored. cbn [map]. rewrite concat_cons. fold (underscored ws).
  rewrite append_cons. cbn [no_double_underscore].
  rewrite (no_double_underscore_run _ _ (capitalised_no_underscore w Hw) IH).
  apply is_capitalised_inv in Hw as (c & d & r & -> & Hc & Hr).
  rewrite append_cons. cbn [starts_with_underscore].
  rewrite (upper_not_underscore c Hc). now rewrite andb_false_r.
Qed.

Lemma lower_append s t : lower (s +:+ t) = lower s +:+ lower t.
Proof.
  induction s as [|c s IH]; [reflexivity|].
  rewrite append_cons. cbn [lower]. rewrite IH. reflexivity.
Qed.

Lemma lower_join ws : lower (join "_" ws) = join "_" (map lower ws).
Proof.
  induction ws as [|w ws IH]; [reflexivity|].
  destruct ws as [|w' ws]; [reflexivity|].
  change (join "_" (w :: w' :: ws)) with (w +:+ String "_" (join "_" (w' :: ws))).
  rewrite lower_append. cbn [lower]. rewrite IH. reflexivity.
Qed.

End PascalCase.

(** X4.  A PascalCase name, a sequence of capitalised words written
    without separators, becomes the same words in lower case joined by
    single underscores. *)
Theorem to_snake_case_pascal_words (ws : list string) :
  Forall (fun w => is_capitalised w = true) ws ->
  to_snake_case (String.concat EmptyString ws) = join "_" (map lower ws).
Proof.
  intros Hws. unfold to_snake_case.
  destruct (String.eqb (String.concat EmptyString ws) EmptyString) eqn:Hempty.
  - apply String.eqb_eq in Hempty. destruct ws as [|w ws]; [reflexivity|].
    rewrite concat_cons in Hempty. inversion Hws as [|? ? Hw _]; subst.
    apply is_capitalised_inv in Hw as (c & d & r & -> & _). discriminate.
  - unfold re_sub at 3.
    rewrite (sub_scan_fixed match_step_one (fun t => no_adjacent_upper t = true)
               no_adjacent_upper_tail step_one_none_adjacent _
               (no_adjacent_upper_words ws Hws)).
    rewrite (step_two_words ws Hws). unfold re_sub.
    rewrite (sub_scan_fixed match_underscores (fun t => no_double_underscore t = true)
               no_double_underscore_tail underscores_none).
    + apply lower_join.
    + destruct ws as [|w ws]; [reflexivity|].
      inversion Hws as [|? ? Hw Hws']; subst.
      rewrite join_underscored.
      apply no_double_underscore_run; [now apply capitalised_no_underscore|].
      now apply no_double_underscore_words.
Qed.

Lemma to_snake_case_pascal_words_witness :
  to_snake_case (String.concat EmptyString ["Allowed"; "Clients"; "V2"])
  = join "_" (map lower ["Allowed"; "Clients"; "V2"]).
Proof.
  apply (to_snake_case_pascal_words ["Allowed"; "Clients"; "V2"]).
  repeat constructor.
Defined.

Section Acronyms.

Lemma uppers_then_not_upper s : starts_with_upper s = false -> match_uppers_then s = None.
Proof.
  destruct s as [|d s]; [reflexivity|]. cbn [starts_with_upper]. intros Hd.
  cbn [match_uppers_then match_upper_lower]. rewrite Hd. now destruct s.
Qed.

(** The greedy run of capitals gives back its last letter when a
    lower-case letter follows. *)
Lemma uppers_then_run t u l r :
  all_chars is_upper t = true -> is_upper u = true -> is_lower l = true ->
  match_uppers_then (t +:+ String u (String l r)) = Some (t, String u (str1 l)).
Proof.
  intros Ht Hu Hl. induction t as [|c t IH].
  - change (EmptyString +:+ ?x) with x.
    change (match_uppers_then (String u (String l r)))
      with (if is_upper u
            then match match_uppers_then (String l r) with
                 | Some (g1, g2) => Some (String u g1, g2)
                 | None => option_map (fun g2 => (EmptyString, g2))
                             (match_upper_lower (String u (String l r)))
                 end
            else option_map (fun g2 => (EmptyString, g2))
                   (match_upper_lower (String u (String l r)))).
    rewrite Hu, uppers_then_not_upper.
    + cbn [match_upper_lower]. rewrite Hu, Hl. reflexivity.
    + cbn [starts_with_upper]. destruct l as [[] [] [] [] [] [] [] []];
        solve [reflexivity | discriminate Hl].
  - cbn [all_chars] in Ht. apply andb_true_iff in Ht as [Hc Ht].
    rewrite append_cons.
    change (match_uppers_then (String c ?x))
      with (if is_upper c
            then match match_uppers_then x with
                 | Some (g1, g2) => Some (String c g1, g2)
                 | None => option_map (fun g2 => (EmptyString, g2))
                             (match_upper_lower (String c x))
                 end
            else option_map (fun g2 => (EmptyString, g2))
                   (match_upper_lower (String c x))).
    rewrite Hc, (IH Ht). reflexivity.
Qed.

Lemma str_drop_append t s : str_drop (String.length t) (t +:+ s) = s.
Proof. induction t as [|c t IH]; [now destruct s|]. exact IH. Qed.

Lemma not_upper_run r :
  all_chars lower_or_digit r = true -> all_chars not_upper r = true.
Proof.
  apply all_chars_weaken. intros c Hc. unfold not_upper.
  now rewrite (lower_or_digit_not_upper c Hc).
Qed.

Lemma step_one_acronym c t u l r :
  all_chars is_upper (String c t) = true -> is_upper u = true -> is_lower l = true ->
  all_chars lower_or_digit r = true ->
  re_sub match_step_one (String c t +:+ String u (String l r))
  = String c t +:+ String "_" (String u (String l r)).
Proof.
  intros Hct Hu Hl Hr. cbn [all_chars] in Hct. apply andb_true_iff in Hct as [Hc Ht].
  unfold re_sub. rewrite append_cons, sub_scan_cons.
  cbn [match_step_one]. rewrite Hc, (uppers_then_run t u l r Ht Hu Hl).
  cbn [Nat.pred String.length str1]. rewrite sub_scan_skip.
  replace (String.length t + 2)%nat with (String.length (t +:+ String u (str1 l)))
    by (rewrite append_length; reflexivity).
  replace (t +:+ String u (String l r)) with ((t +:+ String u (str1 l)) +:+ r)
    by (rewrite append_assoc; reflexivity).
  rewrite str_drop_append.
  rewrite (sub_scan_fixed match_step_one (fun x => all_chars not_upper x = true)
             (all_chars_tail _) step_one_none r (not_upper_run r Hr)).
  rewrite !append_cons, !append_assoc. reflexivity.
Qed.

Lemma no_case_boundary_tail c s :
  no_case_boundary (String c s) = true -> no_case_boundary s = true.
Proof. cbn [no_case_boundary]. intros H. now apply andb_true_iff in H as [_ H]. Qed.

Lemma step_two_none_boundary s : no_case_boundary s = true -> match_step_two s = None.
Proof.
  destruct s as [|a [|b s]]; try reflexivity.
  cbn [no_case_boundary starts_with_upper match_step_two]. unfold lower_or_digit.
  intros H. apply andb_true_iff in H as [H _]. apply negb_true_iff in H.
  now rewrite H.
Qed.

Lemma no_case_boundary_uppers t rest :
  all_chars is_upper t = true -> no_case_boundary rest = true ->
  no_case_boundary (t +:+ rest) = true.
Proof.
  intros Ht Hrest. induction t as [|c t IH]; [exact Hrest|].
  cbn [all_chars] in Ht. apply andb_true_iff in Ht as [Hc Ht].
  rewrite append_cons. cbn [no_case_boundary]. unfold lower_or_digit.
  rewrite (upper_not_lower_or_digit c Hc), (IH Ht). reflexivity.
Qed.

Lemma no_case_boundary_run r :
  all_chars lower_or_digit r = true -> no_case_boundary r = true.
Proof.
  induction r as [|c r IH]; [reflexivity|]. cbn [all_chars no_case_boundary].
  intros H. apply andb_true_iff in H as [Hc Hr]. rewrite (IH Hr), andb_true_r.
  destruct r as [|d r]; [now rewrite andb_false_r|].
  cbn [all_chars] in Hr. apply andb_true_iff in Hr as [Hd _].
  cbn [starts_with_upper]. rewrite (lower_or_digit_not_upper d Hd).
  now rewrite andb_false_r.
Qed.

Lemma uppers_no_underscore t :
  all_chars is_upper t = true -> all_chars (fun c => negb (is_underscore c)) t = true.
Proof.
  apply all_chars_weaken. intros c Hc. now rewrite (upper_not_underscore c Hc).
Qed.

Lemma no_double_underscore_clean x :
  all_chars (fun c => negb (is_underscore c)) x = true -> no_double_underscore x = true.
Proof.
  intros Hx. rewrite <- (append_nil_r x). now apply no_double_underscore_run.
Qed.

Lemma lower_is_lower_or_digit l : is_lower l = true -> lower_or_digit l = true.
Proof. unfold lower_or_digit. now intros ->. Qed.

End Acronyms.

(** X5.  An acronym followed by a capitalised word is cut before the
    word: the run of capitals keeps all its letters but the last, which
    starts the word (as in [MCPService], giving [mcp_service]). *)
Theorem to_snake_case_acronym (acronym w : string) :
  acronym <> EmptyString -> all_chars is_upper acronym = true ->
  is_capitalised_letter w = true ->
  to_snake_case (acronym +:+ w) = lower acronym +:+ String "_" (lower w).
Proof.
  intros Hne Ha Hw.
  destruct acronym as [|c t]; [contradiction|].
  destruct w as [|u [|l r]]; try discriminate.
  unfold is_capitalised_letter in Hw.
  apply andb_true_iff in Hw as [Hw Hr]. apply andb_true_iff in Hw as [Hu Hl].
  pose proof (lower_is_lower_or_digit l Hl) as Hl'.
  assert (Hlr : all_chars lower_or_digit (String l r) = true)
    by (cbn [all_chars]; now rewrite Hl', Hr).
  unfold to_snake_case. rewrite append_cons.
  change (String.eqb (String c ?x) EmptyString) with false. cbv iota.
  rewrite <- append_cons, (step_one_acronym c t u l r Ha Hu Hl Hr).
  unfold re_sub.
  rewrite (sub_scan_fixed match_step_two (fun x => no_case_boundary x = true)
             no_case_boundary_tail step_two_none_boundary).
  - rewrite (sub_scan_fixed match_underscores (fun x => no_double_underscore x = true)
               no_double_underscore_tail underscores_none).
    + rewrite lower_append. reflexivity.
    + apply no_double_underscore_run; [now apply uppers_no_underscore|].
      change (negb (is_underscore "_" && is_underscore u)
              && no_double_underscore (String u (String l r)) = true).
      rewrite (upper_not_underscore u Hu), andb_false_r. cbn [negb andb].
      apply no_double_underscore_clean.
      change (negb (is_underscore u)
              && all_chars (fun c => negb (is_underscore c)) (String l r) = true).
      rewrite (upper_not_underscore u Hu). cbn [negb andb].
      eapply all_chars_weaken; [|exact Hlr].
      intros a Ha'. now rewrite (lower_or_digit_not_underscore a Ha').
  - apply no_case_boundary_uppers; [exact Ha|].
    change (negb (lower_or_digit "_" && is_upper u)
            && (negb (lower_or_digit u && is_upper l)
                && no_case_boundary (String l r)) = true).
    change (lower_or_digit "_") with false.
    rewrite (upper_not_lower_or_digit u Hu : lower_or_digit u = false).
    cbn [andb negb]. now apply no_case_boundary_run.
Qed.

Lemma to_snake_case_acronym_witness :
  to_snake_case ("MCP" +:+ "Service") = lower "MCP" +:+ String "_" (lower "Service").
Proof. apply (to_snake_case_acronym "MCP" "Service"); [discriminate|reflexivity|reflexivity]. Defined.

(** * Further properties of type naming *)

Section Naming.

Lemma qualify_loop_least fuel names b a : forall cand idx c,
  qualify_loop fuel names b a cand idx = Some c ->
  (c = cand /\ (cand ∉ names)) \/
  (cand ∈ names /\
   exists i, (idx <= i)%nat /\ c = candidate_name b a i /\ (c ∉ names) /\
             forall j, (idx <= j < i)%nat -> candidate_name b a j ∈ names).
Proof.
  induction fuel as [|fuel IH]; intros cand idx c; simpl; [discriminate|].
  destruct (decide (cand ∈ names)) as [Hin|Hnin].
  - intros H. right. split; [assumption|].
    apply IH in H as [[-> Hfree]|(Hidx & i & Hi & -> & Hfree & Hbelow)].
    + exists idx. split; [lia|]. split; [reflexivity|]. split; [assumption|].
      intros j Hj. lia.
    + exists i. split; [lia|]. split; [reflexivity|]. split; [assumption|].
      intros j Hj. destruct (Nat.eq_dec j idx) as [->|Hne]; [assumption|].
      apply Hbelow. lia.
  - intros H. injection H as <-. now left.
Qed.

Lemma substring_split k s :
  (k <= String.length s)%nat ->
  substring 0 k s +:+ substring k (String.length s - k) s = s.
Proof.
  revert s. induction k as [|k IH]; intros s Hk.
  - rewrite Nat.sub_0_r. destruct s as [|c s]; [reflexivity|].
    change (substring 0 0 (String c s)) with EmptyString.
    change (EmptyString +:+ ?x) with x.
    clear Hk. induction (String c s) as [|d t IHt]; [reflexivity|].
    simpl. now f_equal.
  - destruct s as [|c s]; [simpl in Hk; lia|]. simpl in Hk.
    change (substring 0 (S k) (String c s)) with (String c (substring 0 k s)).
    change (substring (S k) (String.length (String c s) - S k) (String c s))
      with (substring k (String.length s - k) s).
    change (String c (substring 0 k s) +:+ ?x) with (String c (substring 0 k s +:+ x)).
    f_equal. apply IH. lia.
Qed.

Lemma substring_prefix_length k s :
  (k <= String.length s)%nat -> String.length (substring 0 k s) = k.
Proof.
  revert s. induction k as [|k IH]; intros s Hk.
  - now destruct s.
  - destruct s as [|c s]; [simpl in Hk; lia|]. simpl in *. f_equal. apply IH. lia.
Qed.

Lemma strip_first_suffix_spec suffixes name :
  exists suffix,
    name = strip_first_suffix suffixes name +:+ suffix /\
    (suffix = EmptyString \/ In suffix suffixes) /\
    (name <> EmptyString -> strip_first_suffix suffixes name <> EmptyString).
Proof.
  induction suffixes as [|sfx rest IH].
  - exists EmptyString. simpl. split; [now rewrite append_nil_r|]. split; [now left|trivial].
  - cbn [strip_first_suffix].
    destruct (endswith name sfx && (String.length sfx <? String.length name)%nat)
      eqn:Hhit.
    + apply andb_true_iff in Hhit as [Hend Hlen]. apply Nat.ltb_lt in Hlen.
      unfold endswith in Hend. apply andb_true_iff in Hend as [_ Hend].
      apply String.eqb_eq in Hend.
      exists sfx. split; [|split; [right; now left|]].
      * pose proof (substring_split (String.length name - String.length sfx) name)
          as Hs.
        replace (String.length name - (String.length name - String.length sfx))%nat
          with (String.length sfx) in Hs by lia.
        rewrite Hend in Hs. symmetry. apply Hs. lia.
      * intros _ Hempty. apply (f_equal String.length) in Hempty.
        rewrite substring_prefix_length in Hempty by lia. simpl in Hempty. lia.
    + destruct IH as (suffix & Heq & Hin & Hne).
      exists suffix. split; [assumption|]. split; [|assumption].
      destruct Hin as [->|Hin]; [now left|right; now right].
Qed.

Lemma append_nonempty_l s t : s <> EmptyString -> s +:+ t <> EmptyString.
Proof. destruct s; [contradiction|discriminate]. Qed.

End Naming.

(** X6.  The uniqueness transform returns the plain name
    [<Base>For<Action>] whenever it is unused; otherwise it returns the
    name with the least numeric suffix, from 2 upwards, that is unused. *)
Theorem qualify_model_name_least_suffix (base_name action : string)
  (g : APIStructGenerator) :
  exists c g',
    qualify_model_name base_name action g = Some (c, g') /\
    (c ∉ generated_class_names g) /\
    (c = base_name +:+ "For" +:+ action \/
     (base_name +:+ "For" +:+ action ∈ generated_class_names g /\
      exists i, (2 <= i)%nat /\ c = candidate_name base_name action i /\
                forall j, (2 <= j < i)%nat ->
                          candidate_name base_name action j ∈ generated_class_names g)).
Proof.
  destruct (qualify_model_name_spec base_name action g) as (c & Hq & Hfresh).
  eexists c, _. split; [exact Hq|]. split; [exact Hfresh|].
  unfold qualify_model_name in Hq.
  destruct (qualify_loop _ _ _ _ _ _) as [c'|] eqn:Hloop; [|discriminate].
  injection Hq as -> _.
  apply qualify_loop_least in Hloop as [[-> _]|(Hin & i & Hi & -> & _ & Hbelow)].
  - now left.
  - right. split; [assumption|]. exists i. auto.
Qed.

(** X7.  Stripping a generic suffix only ever removes one of the listed
    suffixes from the end of the name, and never the whole name. *)
Theorem strip_generic_suffix_prefix (name : string) :
  exists suffix,
    name = _strip_generic_suffix name +:+ suffix /\
    (suffix = EmptyString \/ In suffix generic_suffixes) /\
    (name <> EmptyString -> _strip_generic_suffix name <> EmptyString).
Proof. apply strip_first_suffix_spec. Qed.

(** X8.  The base name built for a path is never empty, whatever the
    path: empty segments are dropped, no segment is stripped to nothing,
    and a path without segments gets the name [NestedModel]. *)
Theorem build_nested_base_name_nonempty (path : string) (is_array_object : bool) :
  _build_nested_base_name path is_array_object <> EmptyString.
Proof.
  unfold _build_nested_base_name.
  assert (Hparts : Forall (fun p => p <> EmptyString)
                     (map _strip_generic_suffix (List.filter nonempty (split "." path)))).
  { apply Forall_map, List.Forall_forall. intros p Hp.
    apply filter_In in Hp as [_ Hp]. unfold nonempty in Hp.
    destruct (strip_first_suffix_spec generic_suffixes p) as (_ & _ & _ & Hne).
    apply Hne. intros ->. discriminate. }
  destruct (map _ _) as [|p [|q l]].
  - now destruct is_array_object.
  - inversion Hparts; subst.
    destruct is_array_object; [now apply append_nonempty_l|assumption].
  - inversion Hparts; subst. rewrite concat_cons.
    destruct is_array_object; repeat apply append_nonempty_l; assumption.
Qed.

(** * Further properties of the model graph builder *)

Section BuilderStages.




(** The stages of a successful run of the builder. *)
Lemma build_graph_stages parameters action g s g' :
  build_graph parameters action g = Ok (s, g') ->
  exists d st,
    discover parameters = Ok d /\
    (do st1 <- foldM (create_plain_model action (array_objects_of d))
                 (sorted (nested_object_paths d)) ([], g);
     foldM (create_item_model action (nested_object_paths d))
       (dict_keys (array_objects_of d)) st1) = Ok st /\
    foldM fill_row parameters
      (mkFill (NestedModel.new "Root")
         (fold_left (wire_child (array_objects_of d))
            (sorted (nested_object_paths d)) (fst st)) []) = Ok s /\
    g' = snd st.
Proof.
  rewrite build_graph_unfold.
  destruct (discover parameters) as [d|]; [|discriminate].
  destruct (bind _ _) as [st|] eqn:Hst; [|discriminate].
  destruct (foldM fill_row _ _) as [s0|] eqn:Hfill; [|discriminate].
  intros H. injection H as <- <-. now exists d, st.
Qed.

End BuilderStages.

Section BuilderSuccess.



End BuilderSuccess.


Section NodeSet.

Lemma discover_nested_spec parameters : forall d0 d,
  foldM discover_row parameters d0 = Ok d ->
  forall P,
    P ∈ nested_object_paths d <->
    P ∈ nested_object_paths d0 \/
    exists p pp leaf ai sa,
      In p parameters /\ row_class p = Some (pp, leaf, ai, sa) /\
      In P (nested_prefixes pp).
Proof.
  induction parameters as [|p0 rest IH]; intros d0 d H P; simpl in H.
  - injection H as <-. split; [now left|].
    intros [?|(p & pp & leaf & ai & sa & [] & _)]. assumption.
  - destruct (discover_row p0 d0) as [d1|] eqn:Hrow; simpl in H; [|discriminate].
    apply discover_row_ok in Hrow as (pp & leaf & ai & sa & Hclass & _ & _ & Hnested).
    rewrite (IH _ _ H P), Hnested. split.
    + intros [[?|Hnew]|(p & pp' & leaf' & ai' & sa' & Hin & Hc & HP)].
      * now left.
      * right. exists p0, pp, leaf, ai, sa. split; [now left|]. split; assumption.
      * right. exists p, pp', leaf', ai', sa'. split; [now right|]. split; assumption.
    + intros [?|(p & pp' & leaf' & ai' & sa' & [<-|Hin] & Hc & HP)].
      * left. now left.
      * left. right. rewrite Hclass in Hc. now injection Hc as <- _ _ _.
      * right. exists p, pp', leaf', ai', sa'. auto.
Qed.

Lemma foldM_create_keys action
  (f : string -> model_store * APIStructGenerator
       -> result (model_store * APIStructGenerator))
  (cond : string -> bool) (b : bool) :
  (forall path st,
     f path st = if cond path then create_model path b action st else Ok st) ->
  forall l st st',
    foldM f l st = Ok st' ->
    forall P, dict_has P (fst st') = true -> dict_has P (fst st) = true \/ In P l.
Proof.
  intros Hf. induction l as [|path l IH]; intros st st' H P HP; simpl in H.
  - injection H as <-. now left.
  - rewrite Hf in H. destruct (cond path).
    + destruct (create_model_ok action path b st) as (n & g1 & Hc & _).
      rewrite Hc in H. simpl in H.
      destruct (IH _ _ H P HP) as [Hhas|Hin]; [|right; now right].
      cbn [fst] in Hhas. rewrite dict_has_set in Hhas.
      apply orb_true_iff in Hhas as [Heq|Hhas]; [|now left].
      apply String.eqb_eq in Heq. right. now left.
    + simpl in H. destruct (IH _ _ H P HP) as [?|?]; [now left|right; now right].
Qed.

End NodeSet.

(** X10.  The builder makes one node per ownership-path prefix and no
    other: a path has a node exactly when it is the dotted join of a
    non-empty initial part of some row's ownership path. *)
Theorem nodes_are_ownership_prefixes (parameters : list param) (action : string)
  (g g' : APIStructGenerator) (s : fill_state) :
  build_graph parameters action g = Ok (s, g') ->
  forall P,
    dict_has P (fs_store s) = true <->
    exists p pp leaf ai sa,
      In p parameters /\ row_class p = Some (pp, leaf, ai, sa) /\
      In P (nested_prefixes pp).
Proof.
  intros Hbuild P.
  apply build_graph_stages in Hbuild as (d & st & Hd & Hcreate & Hfill & _).
  pose proof (discover_nested_spec _ _ _ Hd P) as Hnested.
  cbn [empty_discovery nested_object_paths] in Hnested.
  pose proof (store_extends_trans _ _ _
                (fold_wire_extends (array_objects_of d)
                   (sorted (nested_object_paths d)) (fst st))
                (foldM_fill_extends _ _ _ Hfill)) as Hext.
  cbn [fs_store] in Hext. rewrite (store_extends_has _ _ P Hext).
  destruct (creation_spec action d g) as (st0 & Hrun & _ & Hcover).
  rewrite Hrun in Hcreate. injection Hcreate as ->.
  split.
  - intros Hhas.
    assert (HP : P ∈ nested_object_paths d).
    { unfold bind in Hrun.
      destruct (foldM (create_plain_model _ _) _ _) as [st1|] eqn:Hplain;
        [|discriminate].
      destruct (foldM_create_keys action _
                  (fun p => (length (split "." p) =? 1)%nat
                            || bool_decide (p ∈ nested_object_paths d)) true
                  (fun path st => eq_refl) _ _ _ Hrun P Hhas) as [Hhas1|Hin].
      - destruct (foldM_create_keys action _
                    (fun p => negb (dict_has p (array_objects_of d))) false
                    (fun path st => eq_refl) _ _ _ Hplain P Hhas1) as [Hnil|Hin].
        + discriminate.
        + now apply in_sorted.
      - apply dict_keys_has in Hin. rewrite dict_has_array_objects in Hin.
        apply andb_true_iff in Hin as [Haf _].
        apply discover_from_spec in Hd as (_ & Hafs & _ & _ & Hleaf).
        apply Hafs in Haf as [Haf|(p & Hin & Hp)]; [discriminate|].
        eapply Hleaf; eassumption. }
    apply Hnested in HP as [HP|HP]; [|exact HP].
    now apply not_elem_of_empty in HP.
  - intros Hex. apply Hcover, Hnested. now right.
Qed.

Lemma nodes_are_ownership_prefixes_witness :
  dict_has "A.B"
    (match build_graph [row "A.B.N.C"] "X" default_generator with
     | Ok (s, _) => fs_store s
     | Err _ => []
     end) = true.
Proof.
  destruct (build_graph [row "A.B.N.C"] "X" default_generator)
    as [[s g']|] eqn:Hbuild; [|vm_compute in Hbuild; discriminate Hbuild].
  apply (nodes_are_ownership_prefixes _ _ _ _ _ Hbuild "A.B").
  exists (row "A.B.N.C"), ["A"; "B"], "C", true, false.
  split; [now left|]. split; [reflexivity|]. simpl. auto.
Defined.

Section ClassNames.

Lemma dict_set_names k (m : NestedModel.t) (st : model_store) :
  NoDup (model_names st) ->
  ~ In (NestedModel.name m) (model_names st) ->
  NoDup (model_names (dict_set k m st)) /\
  (forall n, In n (model_names (dict_set k m st)) ->
             n = NestedModel.name m \/ In n (model_names st)).
Proof.
  unfold model_names. induction st as [|[k0 m0] st IH]; intros Hnd Hfresh.
  - simpl. split; [apply NoDup_singleton|]. intros n [<-|[]]. now left.
  - cbn [dict_set]. simpl in Hnd, Hfresh.
    apply NoDup_cons in Hnd as [Hm0 Hrest]. rewrite list_elem_of_In in Hm0.
    destruct (String.eqb k0 k).
    + simpl. split.
      * apply NoDup_cons. split; [|assumption].
        rewrite list_elem_of_In. intros Hin. apply Hfresh. now right.
      * intros n [<-|Hin]; [now left|right; now right].
    + destruct IH as [IH1 IH2]; [assumption| |].
      { intros Hin. apply Hfresh. now right. }
      simpl. split.
      * apply NoDup_cons. split; [|assumption].
        rewrite list_elem_of_In. intros Hin.
        apply IH2 in Hin as [Heq|Hin]; [|contradiction].
        apply Hfresh. now left.
      * intros n [<-|Hin]; [right; now left|].
        apply IH2 in Hin as [->|Hin]; [now left|right; now right].
Qed.

Lemma dict_set_same_name k (m m' : NestedModel.t) (st : model_store) :
  dict_get k st = Some m -> NestedModel.name m' = NestedModel.name m ->
  model_names (dict_set k m' st) = model_names st.
Proof.
  unfold model_names. induction st as [|[k0 m0] st IH]; [discriminate|].
  cbn [dict_get dict_set]. destruct (String.eqb k0 k).
  - intros H Hname. injection H as ->. simpl. now rewrite Hname.
  - intros H Hname. simpl. now rewrite (IH H Hname).
Qed.

Lemma store_add_field_names path f st :
  model_names (store_add_field path f st) = model_names st.
Proof.
  unfold store_add_field. destruct (dict_get path st) as [m|] eqn:Hget; [|reflexivity].
  now apply (dict_set_same_name path m).
Qed.

Lemma wire_child_names ao st full_path :
  model_names (wire_child ao st full_path) = model_names st.
Proof.
  unfold wire_child. destruct (_ <? 2)%nat; [reflexivity|].
  destruct (dict_get _ st) as [parent|] eqn:Hget; [|reflexivity].
  destruct (NestedModel.has_python_name _ parent); [reflexivity|].
  now apply (dict_set_same_name _ parent).
Qed.

Lemma fold_wire_names ao l : forall st,
  model_names (fold_left (wire_child ao) l st) = model_names st.
Proof.
  induction l as [|p l IH]; intros st; [reflexivity|].
  simpl. now rewrite IH, wire_child_names.
Qed.

Lemma fill_row_names p s s' :
  fill_row p s = Ok s' -> model_names (fs_store s') = model_names (fs_store s).
Proof.
  unfold fill_row, get_Name.
  destruct (p_Name p) as [n|]; simpl; [|discriminate].
  destruct (parse_field_path n) as [[[[pp leaf] ai] sa]|e]; simpl; [|discriminate].
  destruct pp as [|first rest].
  - intros H. now injection H as <-.
  - cbv zeta.
    repeat match goal with
           | |- context [if ?b then _ else _] => destruct b eqn:?
           | |- context [match dict_get ?k ?st with _ => _ end] =>
               destruct (dict_get k st) eqn:?
           end; intros H; injection H as <-; cbn [fs_store];
      first [reflexivity | apply store_add_field_names].
Qed.

Lemma foldM_fill_names parameters : forall s s',
  foldM fill_row parameters s = Ok s' ->
  model_names (fs_store s') = model_names (fs_store s).
Proof.
  induction parameters as [|p rest IH]; intros s s' H; simpl in H.
  - now injection H as <-.
  - destruct (fill_row p s) as [s1|] eqn:Hrow; simpl in H; [|discriminate].
    rewrite (IH _ _ H). eapply fill_row_names, Hrow.
Qed.

Lemma create_model_names_inv names0 path b action st st' :
  create_model path b action st = Ok st' ->
  names_inv names0 st -> names_inv names0 st'.
Proof.
  unfold create_model.
  destruct (qualify_model_name_spec (_build_nested_base_name path b) action (snd st))
    as (c & Hq & Hfresh).
  rewrite Hq. intros H. injection H as <-.
  intros (Hnd & Hin & Hsub). unfold names_inv. cbn [fst snd generated_class_names with_names].
  assert (Hnew : ~ In (NestedModel.name (NestedModel.new c)) (model_names (fst st))).
  { intros Hc. apply Hin in Hc as [Hc _]. contradiction. }
  destruct (dict_set_names path (NestedModel.new c) (fst st) Hnd Hnew) as [Hnd' Hin'].
  split; [assumption|]. split.
  - intros n Hn. apply Hin' in Hn as [->|Hn].
    + split; [apply elem_of_union_l; now apply elem_of_singleton|].
      intros Hc. apply Hfresh. now apply Hsub.
    + destruct (Hin n Hn) as [H1 H2]. split; [now apply elem_of_union_r|assumption].
  - intros n Hn. apply elem_of_union_r. now apply Hsub.
Qed.

Lemma foldM_create_names_inv names0 action
  (f : string -> model_store * APIStructGenerator
       -> result (model_store * APIStructGenerator))
  (cond : string -> bool) (b : bool) :
  (forall path st,
     f path st = if cond path then create_model path b action st else Ok st) ->
  forall l st st',
    foldM f l st = Ok st' -> names_inv names0 st -> names_inv names0 st'.
Proof.
  intros Hf. induction l as [|path l IH]; intros st st' H Hinv; simpl in H.
  - now injection H as <-.
  - rewrite Hf in H. destruct (cond path).
    + destruct (create_model path b action st) as [st1|] eqn:Hc; simpl in H;
        [|discriminate].
      eapply IH; [exact H|]. eapply create_model_names_inv; eassumption.
    + simpl in H. eapply IH; eassumption.
Qed.

Lemma build_graph_names parameters action g s g' :
  build_graph parameters action g = Ok (s, g') ->
  names_inv (generated_class_names g) (fs_store s, g').
Proof.
  intros Hbuild.
  apply build_graph_stages in Hbuild as (d & st & Hd & Hcreate & Hfill & ->).
  unfold names_inv. cbn [fst snd].
  rewrite (foldM_fill_names _ _ _ Hfill). cbn [fs_store]. rewrite fold_wire_names.
  unfold bind in Hcreate.
  destruct (foldM (create_plain_model _ _) _ _) as [st1|] eqn:Hplain; [|discriminate].
  eapply (foldM_create_names_inv _ action _
            (fun p => (length (split "." p) =? 1)%nat
                      || bool_decide (p ∈ nested_object_paths d)) true
            (fun path st => eq_refl)); [exact Hcreate|].
  eapply (foldM_create_names_inv _ action _
            (fun p => negb (dict_has p (array_objects_of d))) false
            (fun path st => eq_refl)); [exact Hplain|].
  split; [apply NoDup_nil_2|]. split; [intros n []|reflexivity].
Qed.

End ClassNames.

(** X11.  The record types emitted for one request never collide: the
    nested types have pairwise distinct names, all different from the
    request type's own name and from every name registered before the
    call; afterwards all of them are registered, and no earlier
    registration is lost. *)
Theorem generate_request_model_names (action : string) (parameters : list param)
  (g g' : APIStructGenerator) (text : string) :
  generate_request_model action parameters g = Ok (text, g') ->
  NoDup (map NestedModel.name (nested_models g') ++ [action +:+ "Request"]) /\
  (forall n, In n (map NestedModel.name (nested_models g')) ->
             (n ∈ generated_class_names g') /\ (n ∉ generated_class_names g)) /\
  (action +:+ "Request" ∈ generated_class_names g') /\
  generated_class_names g ⊆ generated_class_names g'.
Proof.
  unfold generate_request_model, create_nested_structure. cbv zeta.
  destruct (build_graph _ _ _) as [[s g1]|] eqn:Hbuild; [|discriminate].
  intros H. injection H as _ <-.
  apply build_graph_names in Hbuild as (Hnd & Hin & Hsub).
  cbn [fst snd] in *. cbn [nested_models with_models generated_class_names].
  fold (model_names (fs_store s)).
  cbn [register_class_name generated_class_names with_names] in Hin, Hsub.
  assert (Hreq : action +:+ "Request" ∈ generated_class_names g1).
  { apply Hsub, elem_of_union_l. now apply elem_of_singleton. }
  split; [|split; [|split]].
  - apply NoDup_app. split; [assumption|]. split; [|apply NoDup_singleton].
    intros n Hn Heq. apply list_elem_of_In in Hn.
    apply list_elem_of_singleton in Heq. subst n.
    apply Hin in Hn as [_ Hn]. apply Hn.
    apply elem_of_union_l. now apply elem_of_singleton.
  - intros n Hn. destruct (Hin n Hn) as [H1 H2]. split; [assumption|].
    intros Hg. apply H2. now apply elem_of_union_r.
  - exact Hreq.
  - intros n Hn. apply Hsub. now apply elem_of_union_r.
Qed.

Lemma generate_request_model_names_witness :
  action_request_registered "CreateAgent" create_agent_rows default_generator.
Proof.
  unfold action_request_registered.
  destruct (generate_request_model "CreateAgent" create_agent_rows default_generator)
    as [[text g']|] eqn:Hgen; [|vm_compute in Hgen; discriminate Hgen].
  destruct (generate_request_model_names _ _ _ _ _ Hgen) as (_ & _ & Hreq & _).
  exact Hreq.
Defined.

Section RowsAndReferences.






















End RowsAndReferences.

Section Wiring.




End Wiring.





Section WiredIdentifiers.


End WiredIdentifiers.

Section ReferenceFields.





End ReferenceFields.



(** * Responses, data types and whole documents *)


Section DataTypes.

Lemma datatype_from_registers dts : forall i lines g,
  generated_class_names g
  ⊆ generated_class_names (snd (datatype_models_from i dts lines g)) /\
  (forall dt, In dt dts -> is_emitted_struct dt = true ->
     default EmptyString (dt_StructName dt)
     ∈ generated_class_names (snd (datatype_models_from i dts lines g))).
Proof.
  induction dts as [|dt dts IH]; intros i lines g.
  - split; [reflexivity|intros dt []].
  - cbn [datatype_models_from]. cbv zeta.
    destruct (negb (nonempty (default EmptyString (dt_StructName dt)))
              || (length (default [] (dt_Element dt)) =? 0)%nat) eqn:Hskip.
    + destruct (IH (S i) lines g) as [IH1 IH2]. split; [exact IH1|].
      intros dt' [<-|Hin] Hem; [|now apply IH2].
      unfold is_emitted_struct in Hem. apply andb_true_iff in Hem as [H1 H2].
      rewrite H1 in Hskip. apply negb_true_iff in H2. rewrite H2 in Hskip.
      discriminate.
    + destruct (bool_decide (default EmptyString (dt_StructName dt)
                             ∈ generated_class_names g)) eqn:Hreg.
      * destruct (IH (S i) lines g) as [IH1 IH2]. split; [exact IH1|].
        intros dt' [<-|Hin] Hem; [|now apply IH2].
        apply IH1. now apply bool_decide_eq_true_1 in Hreg.
      * match goal with
        | |- context [datatype_models_from (S i) dts ?l ?g1] =>
            destruct (IH (S i) l g1) as [IH1 IH2]
        end.
        split.
        -- intros n Hn. apply IH1. simpl. now apply elem_of_union_r.
        -- intros dt' [<-|Hin] Hem; [|now apply IH2].
           apply IH1. simpl. apply elem_of_union_l. now apply elem_of_singleton.
Qed.


End DataTypes.


Section Documents.





End Documents.


(** * Files written by the driver *)



(** * Docstring sanitiser: fixed points *)

Section SanitiserFixedPoints.






End SanitiserFixedPoints.



(** * The registry after a whole document *)

Section DocumentRegistry.

Lemma generate_request_model_registers action parameters g text g' :
  generate_request_model action parameters g = Ok (text, g') ->
  (action +:+ "Request" ∈ generated_class_names g') /\
  generated_class_names g ⊆ generated_class_names g'.
Proof.
  unfold generate_request_model, create_nested_structure. cbv zeta.
  destruct (build_graph _ _ _) as [[s g1]|] eqn:Hbuild; [|discriminate].
  intros H. injection H as _ <-.
  apply build_graph_names in Hbuild as (_ & _ & Hsub).
  cbn [fst snd] in *. cbn [with_models generated_class_names].
  cbn [register_class_name generated_class_names with_names] in Hsub.
  split.
  - apply Hsub, elem_of_union_l. now apply elem_of_singleton.
  - intros n Hn. apply Hsub. now apply elem_of_union_r.
Qed.

Lemma generate_response_model_registers action parameters g :
  (action +:+ "Response"
   ∈ generated_class_names (snd (generate_response_model action parameters g))) /\
  generated_class_names g
  ⊆ generated_class_names (snd (generate_response_model action parameters g)).
Proof.
  unfold generate_response_model.
  destruct (bool_decide (action +:+ "Response" ∈ generated_class_names g)) eqn:Hdec.
  - apply bool_decide_eq_true_1 in Hdec. split; [assumption|reflexivity].
  - simpl. split.
    + apply elem_of_union_l. now apply elem_of_singleton.
    + intros n Hn. now apply elem_of_union_r.
Qed.

Lemma generate_api_registers a lines g lines' g' :
  generate_api a (lines, g) = Ok (lines', g') ->
  generated_class_names g ⊆ generated_class_names g' /\
  (default [] (api_RequestParameters a) <> [] ->
   default EmptyString (api_Action a) +:+ "Request" ∈ generated_class_names g') /\
  (default [] (api_ResponseParameters a) <> [] ->
   default EmptyString (api_Action a) +:+ "Response" ∈ generated_class_names g').
Proof.
  unfold generate_api.
  set (action := default EmptyString (api_Action a)).
  assert (Hmid : forall l1 g1,
            match default [] (api_ResponseParameters a) with
            | [] => Ok (l1, g1)
            | _ :: _ =>
                let '(text, g2) :=
                  generate_response_model action
                    (default [] (api_ResponseParameters a)) g1 in
                Ok (l1 ++ ["# " +:+ action +:+ " - Response"; text;
                           EmptyString; EmptyString], g2)
            end = Ok (lines', g') ->
            generated_class_names g1 ⊆ generated_class_names g' /\
            (default [] (api_ResponseParameters a) <> [] ->
             action +:+ "Response" ∈ generated_class_names g')).
  { intros l1 g1.
    pose proof (generate_response_model_registers action
                  (default [] (api_ResponseParameters a)) g1) as [Hin Hsub].
    destruct (default [] (api_ResponseParameters a)) as [|r rs] eqn:Hresp.
    - intros H. injection H as _ <-. split; [reflexivity|]. intros Hne. now contradict Hne.
    - destruct (generate_response_model action (r :: rs) g1) as [text g2].
      cbn [snd] in *. intros H. injection H as _ <-. split; [exact Hsub|auto]. }
  destruct (default [] (api_RequestParameters a)) as [|p0 rest] eqn:Hreq.
  - cbn [bind]. intros H. apply Hmid in H as [Hsub Hresp].
    split; [exact Hsub|]. split; [|exact Hresp]. intros Hne. now contradict Hne.
  - destruct (generate_request_model action (p0 :: rest) g) as [[text g1]|e] eqn:Hgen;
      cbn [bind]; [|discriminate].
    apply generate_request_model_registers in Hgen as [Hin Hsub1].
    intros H. apply Hmid in H as [Hsub Hresp].
    split; [now transitivity (generated_class_names g1)|].
    split; [|exact Hresp]. intros _. now apply Hsub.
Qed.

Lemma foldM_generate_api_registers apis : forall lines g lines' g',
  foldM generate_api apis (lines, g) = Ok (lines', g') ->
  generated_class_names g ⊆ generated_class_names g' /\
  forall a, In a apis ->
    (default [] (api_RequestParameters a) <> [] ->
     default EmptyString (api_Action a) +:+ "Request" ∈ generated_class_names g') /\
    (default [] (api_ResponseParameters a) <> [] ->
     default EmptyString (api_Action a) +:+ "Response" ∈ generated_class_names g').
Proof.
  induction apis as [|a apis IH]; intros lines g lines' g' H; cbn [foldM] in H.
  - injection H as _ <-. split; [reflexivity|intros a []].
  - destruct (generate_api a (lines, g)) as [[l1 g1]|e] eqn:Ha; cbn [bind] in H;
      [|discriminate].
    apply generate_api_registers in Ha as (Hsub1 & Hreq1 & Hresp1).
    apply IH in H as [Hsub Hall].
    split; [now transitivity (generated_class_names g1)|].
    intros b [<-|Hb]; [|now apply Hall].
    split; intros Hne; apply Hsub; auto.
Qed.

End DocumentRegistry.

(** X20.  After a document has been compiled every type it calls for is
    registered: each struct of the [DataType] section that has a name and
    elements, the request type of each action with request rows and the
    response type of each action with response rows; and every name
    registered before the run is still registered. *)
Theorem generate_from_api_json_registers (data : document) (g g' : APIStructGenerator)
  (code : string) :
  generate_from_api_json data g = Ok (code, g') ->
  generated_class_names g ⊆ generated_class_names g' /\
  (forall dt, In dt (default [] (doc_DataType data)) -> is_emitted_struct dt = true ->
     default EmptyString (dt_StructName dt) ∈ generated_class_names g') /\
  (forall a, In a (default [] (doc_ApiList data)) ->
     (default [] (api_RequestParameters a) <> [] ->
      default EmptyString (api_Action a) +:+ "Request" ∈ generated_class_names g') /\
     (default [] (api_ResponseParameters a) <> [] ->
      default EmptyString (api_Action a) +:+ "Response" ∈ generated_class_names g')).
Proof.
  unfold generate_from_api_json. cbv zeta.
  set (lines := _generate_file_header ++ _).
  assert (Hdt : exists l0 g0,
            match doc_DataType data with
            | Some (dt :: dts) =>
                let '(datatype_lines, g1) := generate_datatype_models (dt :: dts) g in
                (lines ++ ["# Data Types"] ++ datatype_lines ++ [EmptyString; EmptyString],
                 g1)
            | _ => (lines, g)
            end = (l0, g0) /\
            generated_class_names g ⊆ generated_class_names g0 /\
            (forall dt, In dt (default [] (doc_DataType data)) ->
               is_emitted_struct dt = true ->
               default EmptyString (dt_StructName dt) ∈ generated_class_names g0)).
  { destruct (doc_DataType data) as [[|dt dts]|].
    - exists lines, g. split; [reflexivity|]. split; [reflexivity|intros dt []].
    - pose proof (datatype_from_registers (dt :: dts) 0 [] g) as [Hsub Hreg].
      fold (generate_datatype_models (dt :: dts) g) in Hsub, Hreg.
      destruct (generate_datatype_models (dt :: dts) g) as [dl g1].
      eexists _, g1. split; [reflexivity|]. split; [exact Hsub|exact Hreg].
    - exists lines, g. split; [reflexivity|]. split; [reflexivity|intros dt []]. }
  destruct Hdt as (l0 & g0 & -> & Hsub0 & Hreg0).
  destruct (foldM generate_api (default [] (doc_ApiList data)) (l0, g0))
    as [[l1 g1]|e] eqn:Hfold; cbn [bind]; [|discriminate].
  intros H. injection H as _ <-.
  apply foldM_generate_api_registers in Hfold as [Hsub Hall].
  split; [now transitivity (generated_class_names g0)|].
  split; [|exact Hall].
  intros dt Hin Hem. apply Hsub. now apply Hreg0.
Qed.

Lemma generate_from_api_json_registers_witness :
  match generate_from_api_json
          (mkDocument None
             (Some [mkApi (Some "CreateAgent") (Some create_agent_rows)
                      (Some [row "AgentId"])]))
          default_generator with
  | Ok (_, g') => "CreateAgentResponse" ∈ generated_class_names g'
  | Err _ => False
  end.
Proof.
  destruct (generate_from_api_json _ default_generator) as [[code g']|] eqn:Hgen;
    [|vm_compute in Hgen; discriminate Hgen].
  destruct (generate_from_api_json_registers _ _ _ _ Hgen) as (_ & _ & Hall).
  apply (Hall (mkApi (Some "CreateAgent") (Some create_agent_rows)
                 (Some [row "AgentId"]))).
  - simpl. auto.
  - discriminate.
Defined.

(** * Field rendering *)

(** X21.  The three places that render a field agree.  An element of a
    data type is rendered exactly as a request field with the same source
    name, type, requiredness and array flag; a response row is rendered as
    the optional request field of its name and type, whatever the row says
    about being required. *)
Theorem field_renderers_agree :
  (forall e : element,
     let elem_name := default EmptyString (e_ElementName e) in
     let ref := default EmptyString (e_ParameterType_ref e) in
     element_line e =
     FieldInfo.to_field_definition
       (FieldInfo.make elem_name (to_snake_case elem_name)
          (if nonempty ref then ref else get_python_type (default 1%Z (e_ElementType e)))
          (Z.eqb (default 0%Z (e_IsRequired e)) 1)
          (Z.eqb (default 0%Z (e_IsArray e)) 1) EmptyString)) /\
  (forall p : param,
     let name := default EmptyString (p_Name p) in
     let ref := default EmptyString (p_ParameterType_ref p) in
     response_field_line p =
     FieldInfo.to_field_definition
       (FieldInfo.make name (to_snake_case name)
          (if nonempty ref then ref else get_python_type (default 1%Z (p_Type p)))
          false (Z.eqb (default 0%Z (p_IsArray p)) 1) EmptyString)).
Proof.
  split.
  - intros e. cbv zeta.
    unfold element_line, FieldInfo.to_field_definition, quoted. cbv zeta.
    cbn [FieldInfo.name FieldInfo.python_name FieldInfo.type_str
         FieldInfo.is_required FieldInfo.is_array].
    destruct (Z.eqb (default 0%Z (e_IsRequired e)) 1);
      destruct (Z.eqb (default 0%Z (e_IsArray e)) 1); cbn [negb];
      rewrite !append_assoc; reflexivity.
  - intros p. cbv zeta.
    unfold response_field_line, FieldInfo.to_field_definition. cbv zeta.
    cbn [FieldInfo.name FieldInfo.python_name FieldInfo.type_str
         FieldInfo.is_required FieldInfo.is_array negb].
    destruct (Z.eqb (default 0%Z (p_IsArray p)) 1); reflexivity.
Qed.
